(** * A shallow embedding of [src/main.py]: the [Blockchain] class and [mine]

    The Python program keeps one [Blockchain] object (pending transactions,
    the chain, the set of peer nodes).  Its methods are embedded as
    computations in a state-and-exception monad over that object; Python
    values are a small universe of JSON data plus [hashlib] objects, which is
    all the program ever stores in a block. *)

From Stdlib Require Import ZArith List String Ascii Lia Bool.
From Stdlib Require Import Sorting.Permutation.
From Stdlib.Strings Require Import Byte.
From Stdlib Require DecimalString.
From stdpp Require Import base decidable option list strings gmap sorting.

Set Warnings "-register-all".
Local Open Scope string_scope.
Local Open Scope list_scope.
Local Open Scope Z_scope.

(** ** Python values *)

(** A [hashlib] object: what [hashlib.sha256(data)] returns.  The object has
    an identity ([hash_id]) and has absorbed [hash_data]; no digest exists
    until [hexdigest()] is called on it. *)
Record hashobj : Type := HashObj { hash_id : nat; hash_data : list byte }.

(** The values the program manipulates.  A float is kept as its [repr()]
    text, which determines it; a dict is its list of items in insertion
    order, with distinct string keys (the only keys the program or JSON
    produce).
    Strings are sequences of ASCII characters. *)
Inductive value : Type :=
| VNone
| VBool (b : bool)
| VInt (n : Z)
| VFloat (repr : string)
| VStr (s : string)
| VList (xs : list value)
| VDict (items : list (string * value))
| VHash (h : hashobj).

(** The exceptions the program can meet.  [RequestException] stands for
    whatever [requests.get] raises when the peer cannot be reached,
    [JSONDecodeError] for [response.json()] on a body that is not JSON. *)
Inductive exn : Type :=
| IndexError
| KeyError
| TypeError
| AttributeError
| ValueError
| NameError (name : string)
| RequestException
| JSONDecodeError.

(** Result of running a piece of Python.  [Unmodelled] marks the places
    where the model gives no verdict: float arithmetic on peer data ([x + 1]
    and [x > n] with [x] a float), the NFKC check of a network location that
    is not ASCII, and values of kinds the model does not carry. *)
Inductive outcome (A : Type) : Type :=
| Ok (a : A)
| Raise (e : exn)
| Unmodelled.
Arguments Ok {A} a.
Arguments Raise {A} e.
Arguments Unmodelled {A}.

(** ** The Blockchain object and the interpreter state *)

Record Blockchain : Type := mkBlockchain {
  current_transactions : list value;
  chain : value;
  nodes : gset string
}.

(** [next_id] is the identity the next [hashlib] object will get. *)
Record world : Type := mkWorld {
  blockchain : Blockchain;
  next_id : nat
}.

Definition M (A : Type) : Type := world -> outcome A * world.

Definition ret {A} (a : A) : M A := fun w => (Ok a, w).
Definition raise {A} (e : exn) : M A := fun w => (Raise e, w).
Definition unmodelled {A} : M A := fun w => (Unmodelled, w).
Definition bind {A B} (m : M A) (k : A -> M B) : M B :=
  fun w =>
    match m w with
    | (Ok a, w') => k a w'
    | (Raise e, w') => (Raise e, w')
    | (Unmodelled, w') => (Unmodelled, w')
    end.
Definition lift {A} (o : outcome A) : M A := fun w => (o, w).
Definition get_self : M Blockchain := fun w => (Ok (blockchain w), w).
Definition set_self (b : Blockchain) : M unit :=
  fun w => (Ok tt, mkWorld b (next_id w)).

Notation "'do' x <- c ; k" := (bind c (fun x => k))
  (at level 20, x name, c at level 100, k at level 200, only parsing).
Notation "'do_' c ; k" := (bind c (fun _ => k))
  (at level 20, c at level 100, k at level 200, only parsing).

(** ** Python primitives on values *)

(** [bool(v)]: truth value testing. *)
Definition truthy (v : value) : bool :=
  match v with
  | VNone => false
  | VBool b => b
  | VInt n => negb (n =? 0)
  | VFloat r => negb (String.eqb r "0.0" || String.eqb r "-0.0")
  | VStr s => negb (String.eqb s EmptyString)
  | VList xs => match xs with [] => false | _ => true end
  | VDict items => match items with [] => false | _ => true end
  | VHash _ => true
  end.

(** The items of a sequence: a list's elements, a str's characters. *)
Fixpoint chars (s : string) : list value :=
  match s with
  | EmptyString => []
  | String c s' => VStr (String c EmptyString) :: chars s'
  end.

(** [len(v)] *)
Definition py_len (v : value) : outcome Z :=
  match v with
  | VStr s => Ok (Z.of_nat (String.length s))
  | VList xs => Ok (Z.of_nat (length xs))
  | VDict items => Ok (Z.of_nat (length items))
  | _ => Raise TypeError
  end.

(** Indexing a list with a Python int: negative indices count from the end. *)
Definition index_list (xs : list value) (i : Z) : outcome value :=
  let n := Z.of_nat (length xs) in
  let j := if i <? 0 then i + n else i in
  if (0 <=? j) && (j <? n)
  then match xs !! Z.to_nat j with Some x => Ok x | None => Raise IndexError end
  else Raise IndexError.

(** [v[i]] with [i] an int *)
Definition getitem_int (v : value) (i : Z) : outcome value :=
  match v with
  | VList xs => index_list xs i
  | VStr s => index_list (chars s) i
  | VDict _ => Raise KeyError
  | _ => Raise TypeError
  end.

Fixpoint lookup_key (k : string) (items : list (string * value)) : option value :=
  match items with
  | [] => None
  | (k', v) :: rest => if String.eqb k k' then Some v else lookup_key k rest
  end.

(** [v[k]] with [k] a str *)
Definition getitem_str (v : value) (k : string) : outcome value :=
  match v with
  | VDict items =>
      match lookup_key k items with Some x => Ok x | None => Raise KeyError end
  | _ => Raise TypeError
  end.

(** [v + 1] *)
Definition py_add1 (v : value) : outcome value :=
  match v with
  | VInt n => Ok (VInt (n + 1))
  | VBool b => Ok (VInt (Z.b2z b + 1))
  | VFloat _ => Unmodelled
  | _ => Raise TypeError
  end.

(** [a > b].  In the program the right operand is always a number.  A
    comparison that involves a float is left unmodelled, as float arithmetic
    is. *)
Definition py_gt (a b : value) : outcome bool :=
  match a, b with
  | VInt x, VInt y => Ok (y <? x)
  | VInt x, VBool y => Ok (Z.b2z y <? x)
  | VBool x, VInt y => Ok (y <? Z.b2z x)
  | VBool x, VBool y => Ok (Z.b2z y <? Z.b2z x)
  | VFloat _, (VInt _ | VBool _ | VFloat _) => Unmodelled
  | (VInt _ | VBool _), VFloat _ => Unmodelled
  | VStr _, VStr _ | VList _, VList _ => Unmodelled
  | _, _ => Raise TypeError
  end.

(** [v != h] where [h] is a hashlib object.  Neither side defines a
    comparison with the other, so Python compares identities. *)
Definition ne_hashobj (v : value) (h : hashobj) : bool :=
  match v with
  | VHash h' => negb (Nat.eqb (hash_id h') (hash_id h))
  | _ => true
  end.

(** ** Text of a value: [str], [repr], [json.dumps] *)

Definition str_of_int (n : Z) : string :=
  DecimalString.NilZero.string_of_int (Z.to_int n).

Definition hex_digit (n : N) : ascii :=
  match n with
  | 0 => "0" | 1 => "1" | 2 => "2" | 3 => "3" | 4 => "4" | 5 => "5"
  | 6 => "6" | 7 => "7" | 8 => "8" | 9 => "9" | 10 => "a" | 11 => "b"
  | 12 => "c" | 13 => "d" | 14 => "e" | _ => "f"
  end%N%char.

Definition hex2 (n : N) : string :=
  String (hex_digit (n / 16)) (String (hex_digit (n mod 16)) EmptyString).

Definition dquote : ascii := "034"%char.
Definition squote : ascii := "039"%char.
Definition backslash : ascii := "092"%char.

Fixpoint join (sep : string) (parts : list string) : string :=
  match parts with
  | [] => EmptyString
  | [p] => p
  | p :: rest => p +:+ sep +:+ join sep rest
  end.

Fixpoint contains_char (c : ascii) (s : string) : bool :=
  match s with
  | EmptyString => false
  | String c' s' => Ascii.eqb c c' || contains_char c s'
  end.

(** [repr(s)] for a str: single quotes unless the text has a single quote
    and no double quote. *)
Definition repr_char (quote : ascii) (c : ascii) : string :=
  let n := N_of_ascii c in
  if Ascii.eqb c quote then String backslash (String c EmptyString)
  else if Ascii.eqb c backslash then "\\"
  else if (n =? 9)%N then "\t"
  else if (n =? 10)%N then "\n"
  else if (n =? 13)%N then "\r"
  else if (n <? 32)%N || (126 <? n)%N then "\x" +:+ hex2 n
  else String c EmptyString.

Definition repr_str (s : string) : string :=
  let quote : ascii :=
    if contains_char squote s && negb (contains_char dquote s) then dquote else squote in
  String quote (String.concat EmptyString (map (repr_char quote) (list_ascii_of_string s)))
    +:+ String quote EmptyString.

(** [repr(v)].  The text of a hashlib object shows its address; the model
    shows its identity instead. *)
Fixpoint py_repr (v : value) : string :=
  match v with
  | VNone => "None"
  | VBool b => if b then "True" else "False"
  | VInt n => str_of_int n
  | VFloat r => r
  | VStr s => repr_str s
  | VList xs => "[" +:+ join ", " (map py_repr xs) +:+ "]"
  | VDict items =>
      "{" +:+ join ", " (map (fun kv => repr_str (fst kv) +:+ ": " +:+ py_repr (snd kv)) items)
          +:+ "}"
  | VHash h => "<sha256 _hashlib.HASH object @ " +:+ str_of_int (Z.of_nat (hash_id h)) +:+ ">"
  end.

(** [str(v)], which is what an f-string field [{v}] inserts. *)
Definition py_str (v : value) : string :=
  match v with
  | VStr s => s
  | _ => py_repr v
  end.

(** [json.dumps] escapes (ensure_ascii is on by default). *)
Definition json_char (c : ascii) : string :=
  let n := N_of_ascii c in
  if Ascii.eqb c dquote then String backslash (String dquote EmptyString)
  else if Ascii.eqb c backslash then "\\"
  else if (n =? 8)%N then "\b"
  else if (n =? 9)%N then "\t"
  else if (n =? 10)%N then "\n"
  else if (n =? 12)%N then "\f"
  else if (n =? 13)%N then "\r"
  else if (n <? 32)%N || (126 <? n)%N then "\u00" +:+ hex2 n
  else String c EmptyString.

Definition json_str (s : string) : string :=
  String dquote (String.concat EmptyString (map json_char (list_ascii_of_string s)))
    +:+ String dquote EmptyString.

Definition json_float (r : string) : string :=
  if String.eqb r "nan" then "NaN"
  else if String.eqb r "inf" then "Infinity"
  else if String.eqb r "-inf" then "-Infinity"
  else r.

(** Sorting the items of a dict by key ([sort_keys=True]). *)
Fixpoint insert_by_key {A} (kv : string * A) (sorted : list (string * A)) : list (string * A) :=
  match sorted with
  | [] => [kv]
  | kv' :: rest =>
      if String.leb (fst kv) (fst kv') then kv :: sorted
      else kv' :: insert_by_key kv rest
  end.

Definition sort_by_key {A} (items : list (string * A)) : list (string * A) :=
  fold_right insert_by_key [] items.

(** All the texts, or nothing if one of them is missing. *)
Fixpoint all_some {A} (xs : list (option A)) : option (list A) :=
  match xs with
  | [] => Some []
  | None :: _ => None
  | Some x :: rest => match all_some rest with Some r => Some (x :: r) | None => None end
  end.

(** [json.dumps(v, sort_keys=True)]: the text, or [None] when the encoder
    raises TypeError because [v] holds an object that is not JSON
    serializable (a hashlib object).  The encoder sorts the items of each
    dict by key and then encodes them; here each value is encoded first and
    the encoded items are sorted by key, which gives the same text. *)
Fixpoint json_dumps (v : value) : option string :=
  match v with
  | VNone => Some "null"
  | VBool b => Some (if b then "true" else "false")
  | VInt n => Some (str_of_int n)
  | VFloat r => Some (json_float r)
  | VStr s => Some (json_str s)
  | VList xs =>
      match all_some (map json_dumps xs) with
      | Some parts => Some ("[" +:+ join ", " parts +:+ "]")
      | None => None
      end
  | VDict items =>
      match all_some (map (fun kv => json_dumps (snd kv)) items) with
      | Some parts =>
          let encoded := sort_by_key (combine (map fst items) parts) in
          Some ("{" +:+ join ", " (map (fun kp => json_str (fst kp) +:+ ": " +:+ snd kp) encoded)
                    +:+ "}")
      | None => None
      end
  | VHash _ => None
  end.

(** [s.encode()]: the bytes of an ASCII text. *)
Definition encode (s : string) : list byte := list_byte_of_string s.


(** ** SHA-256 ([hashlib.sha256]), on 32-bit words kept in [Z] *)

Module SHA256.

Definition w32 (x : Z) : Z := Z.land x 0xffffffff.
Definition add32 (x y : Z) : Z := w32 (x + y).
Definition rotr (n x : Z) : Z := Z.lor (Z.shiftr x n) (w32 (Z.shiftl x (32 - n))).
Definition not32 (x : Z) : Z := Z.lxor x 0xffffffff.

Definition xor3 (x y z : Z) : Z := Z.lxor (Z.lxor x y) z.

Definition Ch (x y z : Z) : Z := Z.lxor (Z.land x y) (Z.land (not32 x) z).
Definition Maj (x y z : Z) : Z := xor3 (Z.land x y) (Z.land x z) (Z.land y z).
Definition Sigma0 (x : Z) : Z := xor3 (rotr 2 x) (rotr 13 x) (rotr 22 x).
Definition Sigma1 (x : Z) : Z := xor3 (rotr 6 x) (rotr 11 x) (rotr 25 x).
Definition sigma0 (x : Z) : Z := xor3 (rotr 7 x) (rotr 18 x) (Z.shiftr x 3).
Definition sigma1 (x : Z) : Z := xor3 (rotr 17 x) (rotr 19 x) (Z.shiftr x 10).

(** The constants of the standard are the first 32 bits of the fractional
    parts of the cube roots (round constants) and of the square roots
    (initial hash value) of the first primes. *)
Definition primes : list Z :=
  [2; 3; 5; 7; 11; 13; 17; 19; 23; 29; 31; 37; 41; 43; 47; 53; 59; 61; 67; 71;
   73; 79; 83; 89; 97; 101; 103; 107; 109; 113; 127; 131; 137; 139; 149; 151;
   157; 163; 167; 173; 179; 181; 191; 193; 197; 199; 211; 223; 227; 229; 233;
   239; 241; 251; 257; 263; 269; 271; 277; 281; 283; 293; 307; 311].

(** The integer cube root of [n] (below [2 ^ bits]), one bit at a time. *)
Fixpoint cube_root (bits : nat) (n r : Z) : Z :=
  match bits with
  | O => r
  | S bits' =>
      let r' := r + Z.shiftl 1 (Z.of_nat bits') in
      cube_root bits' n (if r' * r' * r' <=? n then r' else r)
  end.

Definition K : list Z :=
  Eval vm_compute in map (fun p => w32 (cube_root 36 (Z.shiftl p 96) 0)) primes.

Definition H0 : list Z :=
  Eval vm_compute in map (fun p => w32 (Z.sqrt (Z.shiftl p 64))) (firstn 8 primes).

(** The [n] bytes of [x], most significant first. *)
Definition be_bytes (n : nat) (x : Z) : list Z :=
  map (fun i => Z.land (Z.shiftr x (8 * Z.of_nat i)) 0xff) (rev (seq 0 n)).

(** Padding: a 1 bit, zeros up to 56 bytes modulo 64, the bit length on 8 bytes. *)
Definition pad (msg : list Z) : list Z :=
  let len := Z.of_nat (length msg) in
  msg ++ 0x80 :: repeat 0 (Z.to_nat ((55 - len) mod 64)) ++ be_bytes 8 (8 * len).

Fixpoint words (n : nat) (bs : list Z) : list Z :=
  match n, bs with
  | S n', b0 :: b1 :: b2 :: b3 :: rest =>
      (Z.shiftl b0 24 + Z.shiftl b1 16 + Z.shiftl b2 8 + b3) :: words n' rest
  | _, _ => []
  end.

(** The message schedule: [w] holds the last 16 words, oldest first. *)
Fixpoint schedule (n : nat) (w : list Z) : list Z :=
  match n with
  | O => []
  | S n' =>
      let new := add32 (add32 (sigma1 (nth 14 w 0)) (nth 9 w 0))
                       (add32 (sigma0 (nth 1 w 0)) (nth 0 w 0)) in
      new :: schedule n' (tl w ++ [new])
  end.

Definition regs : Type := (Z * Z * Z * Z * Z * Z * Z * Z)%type.

Definition round (r : regs) (kw : Z * Z) : regs :=
  let '(a, b, c, d, e, f, g, h) := r in
  let t1 := add32 (add32 (add32 h (Sigma1 e)) (add32 (Ch e f g) (fst kw))) (snd kw) in
  let t2 := add32 (Sigma0 a) (Maj a b c) in
  (add32 t1 t2, a, b, c, add32 d t1, e, f, g).

Definition compress (hs : list Z) (block : list Z) : list Z :=
  let w16 := words 16 block in
  let w := w16 ++ schedule 48 w16 in
  let r0 := (nth 0 hs 0, nth 1 hs 0, nth 2 hs 0, nth 3 hs 0,
             nth 4 hs 0, nth 5 hs 0, nth 6 hs 0, nth 7 hs 0) in
  let '(a, b, c, d, e, f, g, h) := fold_left round (combine K w) r0 in
  map (fun p => add32 (fst p) (snd p)) (combine hs [a; b; c; d; e; f; g; h]).

Fixpoint blocks (n : nat) (hs : list Z) (bs : list Z) : list Z :=
  match n with
  | O => hs
  | S n' =>
      match bs with
      | [] => hs
      | _ => blocks n' (compress hs (firstn 64 bs)) (skipn 64 bs)
      end
  end.

(** The 32 bytes of the digest. *)
Definition digest (data : list byte) : list Z :=
  let p := pad (map (fun b => Z.of_N (Byte.to_N b)) data) in
  flat_map (be_bytes 4) (blocks (length p) H0 p).

End SHA256.

(** [hashlib.sha256(data).hexdigest()] *)
Definition sha256_hexdigest (data : list byte) : string :=
  String.concat EmptyString (map (fun b => hex2 (Z.to_N b)) (SHA256.digest data)).

(** ** The methods of [Blockchain] *)

(** [valid_proof(last_proof, proof)] (static) *)
Definition valid_proof (last_proof proof : value) : bool :=
  let guess := encode (py_str last_proof +:+ py_str proof) in
  let guess_hash := sha256_hexdigest guess in
  String.eqb (substring 0 4 guess_hash) "0000".

(** [proof_of_work(last_proof)]: the loop, started at [proof] and run for at
    most [fuel] tests of the condition; [None] when the search is still
    going on after them. *)
Fixpoint proof_of_work_loop (fuel : nat) (last_proof : value) (proof : Z) : option Z :=
  match fuel with
  | O => None
  | S fuel' =>
      if negb (valid_proof last_proof (VInt proof))
      then proof_of_work_loop fuel' last_proof (proof + 1)
      else Some proof
  end.

Definition proof_of_work (fuel : nat) (last_proof : value) : option Z :=
  proof_of_work_loop fuel last_proof 0.

(** [hash(block)] (static).  It returns the hashlib object itself: the
    source does not call [hexdigest()] on it. *)
Definition hash (block : value) : M hashobj :=
  fun w =>
    match json_dumps block with
    | None => (Raise TypeError, w)
    | Some text =>
        let block_string := encode text in
        (Ok (HashObj (next_id w) block_string), mkWorld (blockchain w) (S (next_id w)))
    end.

(** [self.last_block] (property) *)
Definition last_block : M value :=
  do self <- get_self;
  lift (getitem_int (chain self) (-1)).

Definition set_current_transactions (txs : list value) : M unit :=
  do self <- get_self;
  set_self (mkBlockchain txs (chain self) (nodes self)).

Definition set_chain (c : value) : M unit :=
  do self <- get_self;
  set_self (mkBlockchain (current_transactions self) c (nodes self)).

(** [self.chain.append(block)] *)
Definition chain_append (block : value) : M unit :=
  do self <- get_self;
  match chain self with
  | VList xs => set_chain (VList (xs ++ [block]))
  | _ => raise AttributeError
  end.

(** [new_block(proof, previous_hash)]; [now] is what [time.time()] returns,
    and an omitted [previous_hash] is [VNone]. *)
Definition new_block (now : string) (proof previous_hash : value) : M value :=
  do self <- get_self;
  do n <- lift (py_len (chain self));
  do prev <- (if truthy previous_hash then ret previous_hash
              else do last <- lift (getitem_int (chain self) (-1));
                   do h <- hash last;
                   ret (VHash h));
  let block := VDict [("index", VInt (n + 1));
                      ("timestamp", VFloat now);
                      ("transactions", VList (current_transactions self));
                      ("proof", proof);
                      ("previous_hash", prev)] in
  do_ set_current_transactions [];
  do_ chain_append block;
  ret block.

(** [Blockchain()]: the constructor. *)
Definition Blockchain_init (now : string) : M unit :=
  do_ set_self (mkBlockchain [] (VList []) ∅);
  do_ new_block now (VInt 100) (VInt 1);
  ret tt.

(** [new_transaction(sender, recipient, amount)] *)
Definition new_transaction (sender recipient amount : value) : M value :=
  do self <- get_self;
  do_ set_current_transactions
        (current_transactions self ++
           [VDict [("sender", sender); ("recipient", recipient); ("amount", amount)]]);
  do last <- last_block;
  do index <- lift (getitem_str last "index");
  lift (py_add1 index).

(** The body of the [while] loop of [valid_chain], over the blocks that
    follow [last_block] in the chain. *)
Fixpoint valid_chain_loop (last_block : value) (rest : list value) : M bool :=
  match rest with
  | [] => ret true
  | block :: rest' =>
      do prev <- lift (getitem_str block "previous_hash");
      do h <- hash last_block;
      if ne_hashobj prev h then ret false
      else
        do last_proof <- lift (getitem_str last_block "proof");
        do proof <- lift (getitem_str block "proof");
        if negb (valid_proof last_proof proof) then ret false
        else valid_chain_loop block rest'
  end.

(** The items [chain[1:]] the loop visits; [chain[0]] has raised before when
    [chain] is not a sequence. *)
Definition following (chain : value) : list value :=
  match chain with
  | VList xs => tail xs
  | VStr s => tail (chars s)
  | _ => []
  end.

(** [valid_chain(chain)] *)
Definition valid_chain (chain : value) : M bool :=
  do first <- lift (getitem_int chain 0);
  valid_chain_loop first (following chain).

(** *** [register_node] and [urllib.parse.urlparse] *)

Section Urlparse.

(** [urllib.parse] checks a network location that has brackets with
    [_check_bracketed_netloc], which relies on the [ipaddress] module; that
    check is a parameter here. *)
Variable bracketed_netloc_ok : string -> bool.

Definition c0_control_or_space (c : ascii) : bool := (N_of_ascii c <=? 32)%N.
Definition unsafe_byte (c : ascii) : bool :=
  let n := N_of_ascii c in ((n =? 9) || (n =? 10) || (n =? 13))%N.
Definition is_alpha (c : ascii) : bool :=
  let n := N_of_ascii c in (((65 <=? n) && (n <=? 90)) || ((97 <=? n) && (n <=? 122)))%N.
Definition scheme_char (c : ascii) : bool :=
  let n := N_of_ascii c in
  is_alpha c || ((48 <=? n) && (n <=? 57))%N || ((n =? 43) || (n =? 45) || (n =? 46))%N.

Fixpoint lstrip (s : string) : string :=
  match s with
  | String c s' => if c0_control_or_space c then lstrip s' else s
  | EmptyString => EmptyString
  end.

Fixpoint remove_unsafe (s : string) : string :=
  match s with
  | String c s' => if unsafe_byte c then remove_unsafe s' else String c (remove_unsafe s')
  | EmptyString => EmptyString
  end.

(** [url.find(':')] as the text before and after the first colon. *)
Fixpoint split_colon (url : string) : option (string * string) :=
  match url with
  | EmptyString => None
  | String c rest =>
      if Ascii.eqb c ":" then Some (EmptyString, rest)
      else match split_colon rest with
           | Some (before, after) => Some (String c before, after)
           | None => None
           end
  end.

Fixpoint all_chars (p : ascii -> bool) (s : string) : bool :=
  match s with
  | EmptyString => true
  | String c s' => p c && all_chars p s'
  end.

(** What is left of the address once a leading [scheme:] is taken off. *)
Definition after_scheme (address : string) : string :=
  let url := remove_unsafe (lstrip address) in
  match split_colon url with
  | Some (String c before, after) =>
      if is_alpha c && all_chars scheme_char (String c before) then after else url
  | _ => url
  end.

(** [_splitnetloc(url, 2)]: the text up to the first of [/], [?], [#]. *)
Fixpoint until_delim (s : string) : string :=
  match s with
  | EmptyString => EmptyString
  | String c s' =>
      if Ascii.eqb c "/" || Ascii.eqb c "?" || Ascii.eqb c "#" then EmptyString
      else String c (until_delim s')
  end.

(** [url[n:]] *)
Fixpoint skip (n : nat) (url : string) : string :=
  match n, url with
  | S n', String _ rest => skip n' rest
  | _, _ => url
  end.

(** The test [url[:2] == '//'] on what follows the scheme. *)
Definition has_authority (address : string) : bool :=
  String.eqb (substring 0 2 (after_scheme address)) "//".

(** [netloc.isascii()] *)
Definition isascii (s : string) : bool :=
  all_chars (fun c => (N_of_ascii c <? 128)%N) s.

(** [_checknetloc(netloc)], the last step of [urlsplit]: an empty or ASCII
    network location passes; any other is normalised under NFKC and may be
    refused with [ValueError], which is left unmodelled. *)
Definition checknetloc (netloc : string) : outcome unit :=
  if isascii netloc then Ok tt else Unmodelled.

(** [urlparse(address).netloc] *)
Definition urlparse_netloc (address : string) : outcome string :=
  if has_authority address then
    let netloc := until_delim (skip 2 (after_scheme address)) in
    let lb := contains_char "[" netloc in
    let rb := contains_char "]" netloc in
    if (lb && negb rb) || (rb && negb lb) then Raise ValueError
    else if lb && rb && negb (bracketed_netloc_ok netloc)
         then Raise ValueError
         else match checknetloc netloc with
              | Ok _ => Ok netloc
              | Raise e => Raise e
              | Unmodelled => Unmodelled
              end
  else Ok EmptyString.

(** [register_node(address)] *)
Definition register_node (address : string) : M unit :=
  do netloc <- lift (urlparse_netloc address);
  do self <- get_self;
  set_self (mkBlockchain (current_transactions self) (chain self)
                         ({[netloc]} ∪ nodes self)).

End Urlparse.

(** *** [resolve_conflicts] *)

(** What [requests.get] gives for a peer: it raises, or it returns a
    response with a status code whose [json()] is a value, or raises when
    the body is not JSON. *)
Inductive reply : Type :=
| Unreachable
| Response (status_code : Z) (json : option value).

Definition network : Type := string -> reply.

(** One turn of the [for] loop; [best] is [(new_chain, max_length)]. *)
Definition consult (net : network) (node : string) (best : option value * value)
  : M (option value * value) :=
  match net node with
  | Unreachable => raise RequestException
  | Response status_code json =>
      if status_code =? 200 then
        do body <- match json with Some j => ret j | None => raise JSONDecodeError end;
        do length <- lift (getitem_str body "length");
        do chain <- lift (getitem_str body "chain");
        do longer <- lift (py_gt length (snd best));
        if longer then
          do valid <- valid_chain chain;
          if valid then ret (Some chain, length) else ret best
        else ret best
      else ret best
  end.

Fixpoint consult_all (net : network) (order : list string) (best : option value * value)
  : M (option value * value) :=
  match order with
  | [] => ret best
  | node :: rest => do best' <- consult net node best; consult_all net rest best'
  end.

(** [resolve_conflicts()]; [order] is the order in which the [for] loop
    visits the set [self.nodes]. *)
Definition resolve_conflicts (net : network) (order : list string) : M bool :=
  do self <- get_self;
  do max_length <- lift (py_len (chain self));
  do best <- consult_all net order (None, VInt max_length);
  match fst best with
  | Some new_chain =>
      if truthy new_chain then do_ set_chain new_chain; ret true
      else ret false
  | None => ret false
  end.

(** ** The [mine] view *)

(** The names bound at module level when a view runs (the star import of
    [typing] and the builtins bind neither of the names [mine] misspells). *)
Definition module_names : list string :=
  ["hashlib"; "json"; "time"; "dedent"; "uuid4"; "Flask"; "jsonify"; "request";
   "urlparse"; "requests"; "Blockchain"; "app"; "node_identifier"; "blockchain";
   "mine"; "new_transaction"; "full_chain"; "register_nodes"; "consensus"].

(** Loading a module-level name to call a [Blockchain] method on it: only
    [blockchain] is bound to the Blockchain object. *)
Definition load_blockchain (name : string) : M unit :=
  if String.eqb name "blockchain" then ret tt
  else if existsb (String.eqb name) module_names then raise AttributeError
  else raise (NameError name).

(** Loading a module-level name as a value; of the module's names only
    [node_identifier] is bound to a value of the universe. *)
Definition load_global (node_identifier : string) (name : string) : M value :=
  if String.eqb name "node_identifier" then ret (VStr node_identifier)
  else if existsb (String.eqb name) module_names then unmodelled
  else raise (NameError name).

(** [mine()]: [None] when the proof search is still going on after [fuel]
    tests of the loop condition. *)
Definition mine (fuel : nat) (now : string) (node_identifier : string) : M (option value) :=
  do_ load_blockchain "block_chain";
  do last <- last_block;
  do last_proof <- lift (getitem_str last "proof");
  do_ load_blockchain "blockchain";
  match proof_of_work fuel last_proof with
  | None => ret None
  | Some proof =>
      do_ load_blockchain "blockchain";
      do recipient <- load_global node_identifier "node_identifier";
      do_ new_transaction (VStr "0") recipient (VInt 1);
      do_ load_blockchain "blockchain";
      do previous_hash <- hash last;
      do_ load_blockchain "blockchain";
      do previous_hast <- load_global node_identifier "previous_hast";
      do block <- new_block now (VInt proof) previous_hast;
      do index <- lift (getitem_str block "index");
      do transactions <- lift (getitem_str block "transactions");
      do proof' <- lift (getitem_str block "proof");
      do prev <- lift (getitem_str block "previous_hash");
      ret (Some (VDict [("message", VStr "New block forged");
                        ("index", index);
                        ("transactions", transactions);
                        ("proof", proof');
                        ("previous_hash", prev)]))
  end.

(** A value that holds a hashlib object somewhere. *)
Fixpoint has_hash (v : value) : bool :=
  match v with
  | VHash _ => true
  | VList xs => existsb has_hash xs
  | VDict items => existsb (fun kv => has_hash (snd kv)) items
  | _ => false
  end.

(** ** The other views *)

(** A view returns a body and a status code.  [values] below is what
    [request.get_json()] returned; when that call raises, the body of the
    view does not run. *)

(** [k in s] for two strs: [k] occurs in [s]. *)
Fixpoint contains_text (k s : string) : bool :=
  String.prefix k s ||
  match s with
  | EmptyString => false
  | String _ s' => contains_text k s'
  end.

(** [k in container] with [k] a str *)
Definition py_in (k : string) (container : value) : outcome bool :=
  match container with
  | VDict items => Ok (match lookup_key k items with Some _ => true | None => false end)
  | VList xs =>
      Ok (existsb (fun x => match x with VStr s => String.eqb k s | _ => false end) xs)
  | VStr s => Ok (contains_text k s)
  | _ => Raise TypeError
  end.

(** [all(k in values for k in required)] *)
Fixpoint all_in (required : list string) (values : value) : outcome bool :=
  match required with
  | [] => Ok true
  | k :: rest =>
      match py_in k values with
      | Ok true => all_in rest values
      | other => other
      end
  end.

(** [jsonify(v)]: the JSON response that carries [v]; the encoder raises
    TypeError on an object it cannot serialise. *)
Definition jsonify (v : value) : outcome value :=
  if has_hash v then Raise TypeError else Ok v.

(** The view [new_transaction()] *)
Definition new_transaction_view (values : value) : M (value * Z) :=
  do present <- lift (all_in ["sender"; "recipient"; "amount"] values);
  if negb present then ret (VStr "Missing", 400)
  else
    do_ load_blockchain "blockchain";
    do sender <- lift (getitem_str values "sender");
    do recipient <- lift (getitem_str values "recipient");
    do amount <- lift (getitem_str values "amount");
    do index <- new_transaction sender recipient amount;
    let response :=
      VDict [("message", VStr ("Transaction will be added to block #" +:+ py_str index))] in
    do body <- lift (jsonify response);
    ret (body, 201).

(** The view [full_chain()] *)
Definition full_chain : M (value * Z) :=
  do_ load_blockchain "blockchain";
  do self <- get_self;
  do_ load_blockchain "blockchain";
  do length <- lift (py_len (chain self));
  let response := VDict [("chain", chain self); ("length", VInt length)] in
  do body <- lift (jsonify response);
  ret (body, 200).

(** [values.get('nodes')]: a dict method. *)
Definition dict_get (values : value) (k : string) : outcome value :=
  match values with
  | VDict items => Ok (match lookup_key k items with Some v => v | None => VNone end)
  | _ => Raise AttributeError
  end.

(** The items a [for] loop visits. *)
Definition py_iter (v : value) : outcome (list value) :=
  match v with
  | VList xs => Ok xs
  | VStr s => Ok (chars s)
  | VDict items => Ok (map (fun kv => VStr (fst kv)) items)
  | _ => Raise TypeError
  end.

(** [register_node(node)] on any value: [urlparse] fails on a truthy value
    that is not a str (it has no [decode]); on a falsy one it gives a bytes
    network location, which the model does not cover. *)
Definition register_node_value (bracketed_netloc_ok : string -> bool) (node : value) : M unit :=
  match node with
  | VStr address => register_node bracketed_netloc_ok address
  | _ => if truthy node then raise AttributeError else unmodelled
  end.

Fixpoint register_each (bracketed_netloc_ok : string -> bool) (nodes : list value) : M unit :=
  match nodes with
  | [] => ret tt
  | node :: rest =>
      do_ register_node_value bracketed_netloc_ok node;
      register_each bracketed_netloc_ok rest
  end.

(** The view [register_nodes()]; [listing] is the order in which
    [list(blockchain.nodes)] puts the set. *)
Definition register_nodes (bracketed_netloc_ok : string -> bool)
           (listing : gset string -> list string) (values : value) : M (value * Z) :=
  do node_list <- lift (dict_get values "nodes");
  match node_list with
  | VNone => ret (VStr "Error: Supply a valid list of nodes", 400)
  | _ =>
      do items <- lift (py_iter node_list);
      do_ register_each bracketed_netloc_ok items;
      do_ load_blockchain "blockchain";
      do self <- get_self;
      let response :=
        VDict [("message", VStr "New nodes registered");
               ("total_nodes", VList (map VStr (listing (nodes self))))] in
      do body <- lift (jsonify response);
      ret (body, 201)
  end.

(** The view [consensus()] *)
Definition consensus (net : network) (order : list string) : M (value * Z) :=
  do_ load_blockchain "blockchain";
  do replaced <- resolve_conflicts net order;
  do_ load_blockchain "blockchain";
  do self <- get_self;
  let response :=
    if replaced
    then VDict [("message", VStr "Chain replaced"); ("new_chain", chain self)]
    else VDict [("message", VStr "Current chain is authoritative"); ("chain", chain self)] in
  do body <- lift (jsonify response);
  ret (body, 200).

(** * Vocabulary of the properties *)

(** The interpreter before [blockchain = Blockchain()] has run, and the
    state right after it, when the clock reads [now]. *)
Definition boot : world := mkWorld (mkBlockchain [] (VList []) ∅) 0.
Definition fresh (now : string) : world := snd (Blockchain_init now boot).

(** The block the constructor appends: [new_block(proof=100, previous_hash=1)]. *)
Definition genesis (now : string) : value :=
  VDict [("index", VInt 1); ("timestamp", VFloat now); ("transactions", VList []);
         ("proof", VInt 100); ("previous_hash", VInt 1)].

(** The block [new_block(proof)] appends to the genesis block when nothing
    is pending; [h] is what [hash] returned for the genesis block. *)
Definition second_block (now : string) (proof : value) (h : hashobj) : value :=
  VDict [("index", VInt 2); ("timestamp", VFloat now); ("transactions", VList []);
         ("proof", proof); ("previous_hash", VHash h)].

(** The genesis block built again with its fields inserted in the opposite
    order. *)
Definition genesis_reversed (now : string) : value :=
  VDict [("previous_hash", VInt 1); ("proof", VInt 100); ("transactions", VList []);
         ("timestamp", VFloat now); ("index", VInt 1)].

(** The dict that [new_block] builds. *)
Definition block_dict (index : Z) (now : string) (txs : list value) (proof prev : value) : value :=
  VDict [("index", VInt index); ("timestamp", VFloat now); ("transactions", VList txs);
         ("proof", proof); ("previous_hash", prev)].

(** The dict that [new_transaction] appends to the pending pool. *)
Definition transaction (sender recipient amount : value) : value :=
  VDict [("sender", sender); ("recipient", recipient); ("amount", amount)].

(** The states reached from a new [Blockchain] by calls of [new_block] with
    any proof and [previous_hash] left out. *)
Inductive built : world -> Prop :=
| built_init (now : string) (w : world) :
    built (snd (Blockchain_init now w))
| built_new_block (now : string) (proof : value) (w : world) :
    built w -> built (snd (new_block now proof VNone w)).

(** The states reached from a new [Blockchain] by [new_block] and
    [new_transaction], with any arguments. *)
Inductive reachable : world -> Prop :=
| reach_init (now : string) (w : world) :
    reachable (snd (Blockchain_init now w))
| reach_new_block (now : string) (proof prev : value) (w : world) :
    reachable w -> reachable (snd (new_block now proof prev w))
| reach_new_transaction (sender recipient amount : value) (w : world) :
    reachable w -> reachable (snd (new_transaction sender recipient amount w)).

(** Every proof in the chain satisfies [valid_proof] against the proof of
    the block before it. *)
Fixpoint proofs_linked (last : value) (rest : list value) : bool :=
  match rest with
  | [] => true
  | block :: rest' =>
      match getitem_str last "proof", getitem_str block "proof" with
      | Ok last_proof, Ok proof => valid_proof last_proof proof && proofs_linked block rest'
      | _, _ => false
      end
  end.

(** Submitting transactions one after the other. *)
Fixpoint submit (txs : list (value * value * value)) : M unit :=
  match txs with
  | [] => ret tt
  | (sender, recipient, amount) :: rest =>
      do_ new_transaction sender recipient amount; submit rest
  end.

(** The pending pool after these transactions were submitted to an empty one. *)
Definition pending (txs : list (value * value * value)) : list value :=
  map (fun tx => transaction (fst (fst tx)) (snd (fst tx)) (snd tx)) txs.

(** A computation that leaves the Blockchain object as it found it (it may
    still create hashlib objects). *)
Definition reads_only {A} (m : M A) : Prop :=
  forall w, blockchain (snd (m w)) = blockchain w.

(** A peer is passed over when it answers with a status other than 200. *)
Definition skipped (net : network) (node : string) : bool :=
  match net node with
  | Response status_code _ => negb (status_code =? 200)
  | Unreachable => false
  end.

(** The state once [netloc] has been added to [self.nodes]. *)
Definition add_node (netloc : string) (w : world) : world :=
  mkWorld (mkBlockchain (current_transactions (blockchain w)) (chain (blockchain w))
                        ({[netloc]} ∪ nodes (blockchain w)))
          (next_id w).

(** The order in which [sort_by_key] puts the items. *)
Definition key_le {A} (kv kv' : string * A) : Prop := String.leb (fst kv) (fst kv') = true.

(** The encoded items of a dict, if every value can be encoded. *)
Definition encoded_items (items : list (string * value)) : option (list (string * string)) :=
  match all_some (map (fun kv => json_dumps (snd kv)) items) with
  | Some parts => Some (combine (map fst items) parts)
  | None => None
  end.

(** A new Blockchain extended by [new_block(0)]. *)
Definition unproved_world : world := snd (new_block "2.0" (VInt 0) VNone (fresh "1.0")).

(** A new Blockchain with one pending transaction and one more block. *)
Definition busy_world : world :=
  snd (new_block "3.0" (VInt 7) (VStr "abc")
         (snd (new_transaction (VStr "a") (VStr "b") (VInt 5) (fresh "1.0")))).

(** The answer of a peer that reports [reported] blocks and sends the
    one-block chain of another new Blockchain. *)
Definition peer_answer (reported : Z) : reply :=
  Response 200 (Some (VDict [("length", VInt reported); ("chain", VList [genesis "9.0"])])).

(** A new Blockchain that knows two peers. *)
Definition peers_world : world :=
  snd (register_node (fun _ => true) "http://up:5000"
         (snd (register_node (fun _ => true) "http://down:5000" (fresh "1.0")))).

(** [down:5000] cannot be reached; every other peer answers. *)
Definition flaky_net : network :=
  fun node => if String.eqb node "down:5000" then Unreachable else peer_answer 2.

(** A Blockchain with two blocks that knows one peer, and a peer that
    reports three blocks but sends one. *)
Definition one_peer_world : world :=
  snd (register_node (fun _ => true) "http://peer:5000" unproved_world).

Definition lying_net : network := fun _ => peer_answer 3.

(** Induction on values, through the lists of a list and of a dict. *)
Fixpoint value_induction (P : value -> Prop)
    (HNone : P VNone) (HBool : forall b, P (VBool b)) (HInt : forall n, P (VInt n))
    (HFloat : forall r, P (VFloat r)) (HStr : forall s, P (VStr s))
    (HList : forall xs, Forall P xs -> P (VList xs))
    (HDict : forall items, Forall (fun kv => P (snd kv)) items -> P (VDict items))
    (HHash : forall h, P (VHash h))
    (v : value) {struct v} : P v :=
  let rec := value_induction P HNone HBool HInt HFloat HStr HList HDict HHash in
  match v with
  | VNone => HNone
  | VBool b => HBool b
  | VInt n => HInt n
  | VFloat r => HFloat r
  | VStr s => HStr s
  | VList xs =>
      HList xs ((fix all (l : list value) : Forall P l :=
                   match l with
                   | [] => List.Forall_nil P
                   | x :: l' => @List.Forall_cons _ P x l' (rec x) (all l')
                   end) xs)
  | VDict items =>
      HDict items ((fix all (l : list (string * value)) : Forall (fun kv => P (snd kv)) l :=
                      match l with
                      | [] => List.Forall_nil _
                      | kv :: l' => @List.Forall_cons _ _ kv l' (rec (snd kv)) (all l')
                      end) items)
  | VHash h => HHash h
  end.

(** A chain whose block at position [i] (from 0) is numbered [i + 1]. *)
Definition numbered (blocks : list value) : Prop :=
  forall (i : nat) (block : value),
    blocks !! i = Some block -> getitem_str block "index" = Ok (VInt (Z.of_nat i + 1)).

(** A non-empty list or a non-empty str: what [chain[-1]] accepts. *)
Definition nonempty_sequence (v : value) : bool :=
  match v with
  | VList (_ :: _) => true
  | VStr (String _ _) => true
  | _ => false
  end.

(** The states reached from a new [Blockchain] by any calls of its methods,
    with any arguments, any answers of the peers and any visiting order. *)
Inductive running : world -> Prop :=
| run_init (now : string) (w : world) :
    running (snd (Blockchain_init now w))
| run_new_block (now : string) (proof prev : value) (w : world) :
    running w -> running (snd (new_block now proof prev w))
| run_new_transaction (sender recipient amount : value) (w : world) :
    running w -> running (snd (new_transaction sender recipient amount w))
| run_hash (block : value) (w : world) :
    running w -> running (snd (hash block w))
| run_register_node (ok : string -> bool) (address : string) (w : world) :
    running w -> running (snd (register_node ok address w))
| run_valid_chain (c : value) (w : world) :
    running w -> running (snd (valid_chain c w))
| run_resolve_conflicts (net : network) (order : list string) (w : world) :
    running w -> running (snd (resolve_conflicts net order w)).

(** A peer that answers 200 with this reported length and this chain. *)
Definition offer (reported : Z) (peer_chain : value) : reply :=
  Response 200 (Some (VDict [("length", VInt reported); ("chain", peer_chain)])).

(** The peers all answer 200, each with the reported length and the
    one-block chain that [offers] gives for it. *)
Definition offering (offers : string -> Z * value) : network :=
  fun node => offer (fst (offers node)) (VList [snd (offers node)]).

(** A new Blockchain that has adopted, from a peer that reported two
    blocks, a one-block chain whose block has no [index] entry. *)
Definition adopted_world : world :=
  snd (resolve_conflicts (fun _ => offer 2 (VList [VDict [("proof", VInt 1)]]))
                         ["peer:5000"] (fresh "1.0")).

(** The [for] loop of [resolve_conflicts] on peers that all answer 200 with
    an int length and a one-block chain: the best offer so far, as a pure
    left-to-right scan. *)
Fixpoint pick (offers : string -> Z * value) (order : list string) (best : option value * Z)
  : option value * Z :=
  match order with
  | [] => best
  | node :: rest =>
      pick offers rest
           (if snd best <? fst (offers node)
            then (Some (VList [snd (offers node)]), fst (offers node))
            else best)
  end.

(** A scheme as [urlsplit] recognises one: a letter, then letters, digits,
    [+], [-] or [.]. *)
Definition valid_scheme (scheme : string) : bool :=
  match scheme with
  | String c _ => is_alpha c && all_chars scheme_char scheme
  | EmptyString => false
  end.

(** One of the characters that end the network location. *)
Definition is_delim (c : ascii) : bool :=
  Ascii.eqb c "/" || Ascii.eqb c "?" || Ascii.eqb c "#".

(** A host[:port] text without delimiters, brackets, tabs or newlines. *)
Definition plain_host (host : string) : bool :=
  all_chars (fun c => negb (is_delim c || Ascii.eqb c "[" || Ascii.eqb c "]" || unsafe_byte c))
            host.

(** What may follow the network location: nothing, or a path, query or
    fragment. *)
Definition starts_path (rest : string) : bool :=
  match rest with
  | EmptyString => true
  | String c _ => is_delim c
  end.

(** * Properties *)

(** ** Running monadic code *)

Ltac run :=
  repeat (cbn [bind ret raise lift unmodelled get_self set_self fst snd
               set_current_transactions set_chain chain_append last_block
               blockchain next_id current_transactions chain nodes]
          || unfold bind, ret, raise, lift, unmodelled, get_self, set_self,
               set_current_transactions, set_chain, chain_append, last_block).

Lemma hash_ok (block : value) (text : string) (w : world) :
  json_dumps block = Some text ->
  hash block w = (Ok (HashObj (next_id w) (encode text)),
                  mkWorld (blockchain w) (S (next_id w))).
Proof. intros H. unfold hash. now rewrite H. Qed.

Lemma hash_raises (block : value) (w : world) :
  json_dumps block = None -> hash block w = (Raise TypeError, w).
Proof. intros H. unfold hash. now rewrite H. Qed.

Lemma hash_blockchain (block : value) (w : world) :
  blockchain (snd (hash block w)) = blockchain w.
Proof. unfold hash. now destruct (json_dumps block). Qed.

Lemma hash_next_id (block : value) (w : world) :
  (next_id w <= next_id (snd (hash block w)))%nat.
Proof. unfold hash. destruct (json_dumps block); cbn; lia. Qed.

(** ** The proof-of-work search *)

Lemma proof_of_work_loop_sound (fuel : nat) (last_proof : value) (start p : Z) :
  proof_of_work_loop fuel last_proof start = Some p ->
  start <= p /\ valid_proof last_proof (VInt p) = true /\
  forall k, start <= k < p -> valid_proof last_proof (VInt k) = false.
Proof.
  revert start. induction fuel as [|fuel IH]; intros start; cbn; [discriminate|].
  destruct (valid_proof last_proof (VInt start)) eqn:E; cbn.
  - intros [= <-]. repeat split; [lia | assumption | intros k Hk; lia].
  - intros H. destruct (IH _ H) as (Hle & Hv & Hmin).
    repeat split; [lia | assumption |].
    intros k Hk. destruct (Z.eq_dec k start) as [-> | Hne]; [assumption|].
    apply Hmin. lia.
Qed.

Lemma proof_of_work_loop_finds (fuel : nat) (last_proof : value) (start q : Z) :
  start <= q < start + Z.of_nat fuel ->
  valid_proof last_proof (VInt q) = true ->
  exists p, proof_of_work_loop fuel last_proof start = Some p /\ p <= q.
Proof.
  revert start. induction fuel as [|fuel IH]; intros start Hq Hv; [lia|].
  cbn [proof_of_work_loop].
  destruct (valid_proof last_proof (VInt start)) eqn:E; cbn [negb].
  - exists start. split; [reflexivity | lia].
  - destruct (Z.eq_dec q start) as [-> | Hne]; [congruence|].
    apply IH; [lia | assumption].
Qed.

(** More fuel does not change a proof that was found. *)
Lemma proof_of_work_loop_more (fuel fuel' : nat) (last_proof : value) (start p : Z) :
  (fuel <= fuel')%nat ->
  proof_of_work_loop fuel last_proof start = Some p ->
  proof_of_work_loop fuel' last_proof start = Some p.
Proof.
  revert fuel' start. induction fuel as [|fuel IH]; intros fuel' start Hle; cbn; [discriminate|].
  destruct fuel' as [|fuel']; [lia|]. cbn.
  destruct (valid_proof last_proof (VInt start)); cbn; [auto|].
  apply IH. lia.
Qed.

(** C3. Whatever [proof_of_work(last_proof)] returns satisfies
    [valid_proof(last_proof, .)] and no non-negative integer below it does;
    and it does return: as soon as some non-negative [q] satisfies
    [valid_proof(last_proof, q)], the search ends after at most [q + 1]
    tests of the loop condition. *)
Theorem proof_of_work_least (last_proof : Z) :
  (forall fuel p,
      proof_of_work fuel (VInt last_proof) = Some p ->
      0 <= p /\
      valid_proof (VInt last_proof) (VInt p) = true /\
      forall k, 0 <= k < p -> valid_proof (VInt last_proof) (VInt k) = false) /\
  (forall q,
      0 <= q ->
      valid_proof (VInt last_proof) (VInt q) = true ->
      exists p,
        p <= q /\
        forall fuel, (Z.to_nat q < fuel)%nat ->
                     proof_of_work fuel (VInt last_proof) = Some p).
Proof.
  split.
  - intros fuel p Hp. now apply (proof_of_work_loop_sound fuel (VInt last_proof) 0 p).
  - intros q Hq Hv.
    destruct (proof_of_work_loop_finds (S (Z.to_nat q)) (VInt last_proof) 0 q)
      as (p & Hp & Hle); [lia | assumption |].
    exists p. split; [assumption|]. intros fuel Hfuel.
    apply (proof_of_work_loop_more (S (Z.to_nat q))); [lia | assumption].
Qed.

(** The proof of the first mined block: the genesis proof is 100. *)
Lemma proof_of_work_least_witness :
  exists p,
    p <= 35293 /\
    (forall fuel, (Z.to_nat 35293 < fuel)%nat ->
                  proof_of_work fuel (VInt 100) = Some p) /\
    valid_proof (VInt 100) (VInt p) = true /\
    forall k, 0 <= k < p -> valid_proof (VInt 100) (VInt k) = false.
Proof.
  destruct (proof_of_work_least 100) as (Hsound & Hfinds).
  destruct (Hfinds 35293) as (p & Hle & Hp); [lia | vm_compute; reflexivity |].
  exists p. split; [assumption|]. split; [assumption|].
  apply (Hsound (S (Z.to_nat 35293)) p). apply Hp. lia.
Defined.

(** ** The [mine] view *)

Lemma mine_raises_NameError (fuel : nat) (now node_identifier : string) (w : world) :
  mine fuel now node_identifier w = (Raise (NameError "block_chain"), w).
Proof. reflexivity. Qed.

(** ** The constructor *)

Lemma Blockchain_init_world (now : string) (w : world) :
  Blockchain_init now w =
  (Ok tt, mkWorld (mkBlockchain [] (VList [genesis now]) ∅) (next_id w)).
Proof. reflexivity. Qed.

Lemma json_dumps_genesis (now : string) : exists text, json_dumps (genesis now) = Some text.
Proof. eexists. reflexivity. Qed.

(** ** [valid_chain] on lists *)

Lemma valid_chain_empty (w : world) : valid_chain (VList []) w = (Raise IndexError, w).
Proof. reflexivity. Qed.

Lemma valid_chain_single (block : value) (w : world) :
  valid_chain (VList [block]) w = (Ok true, w).
Proof. reflexivity. Qed.

Lemma valid_chain_two (first block : value) (rest : list value) (w : world) :
  valid_chain (VList (first :: block :: rest)) w =
  valid_chain_loop first (block :: rest) w.
Proof. reflexivity. Qed.

Lemma valid_chain_no_previous_hash
  (first : value) (items : list (string * value)) (rest : list value) (w : world) :
  lookup_key "previous_hash" items = None ->
  valid_chain (VList (first :: VDict items :: rest)) w = (Raise KeyError, w).
Proof.
  intros H. rewrite valid_chain_two. cbn [valid_chain_loop]. run.
  unfold getitem_str. now rewrite H.
Qed.

Lemma valid_chain_not_a_dict (first block : value) (rest : list value) (w : world) :
  (forall items, block <> VDict items) ->
  valid_chain (VList (first :: block :: rest)) w = (Raise TypeError, w).
Proof.
  intros H. rewrite valid_chain_two. cbn [valid_chain_loop]. run.
  destruct block; try reflexivity. now destruct (H items).
Qed.

(** The first turn of the loop on a block that carries a hashlib object
    older than the next one: the comparison is by identity and fails. *)
Lemma valid_chain_loop_stale
  (first : value) (items : list (string * value)) (rest : list value)
  (h : hashobj) (text : string) (w : world) :
  lookup_key "previous_hash" items = Some (VHash h) ->
  (hash_id h < next_id w)%nat ->
  json_dumps first = Some text ->
  fst (valid_chain_loop first (VDict items :: rest) w) = Ok false.
Proof.
  intros Hprev Hid Htext. cbn [valid_chain_loop]. run.
  unfold getitem_str. rewrite Hprev. rewrite (hash_ok _ _ _ Htext).
  unfold ne_hashobj. cbn [hash_id].
  destruct (Nat.eqb_spec (hash_id h) (next_id w)) as [E|E]; [lia|]. reflexivity.
Qed.

(** C4 (as amended). [valid_chain] returns true on every one-element list,
    raises IndexError on the empty list, raises KeyError when the second
    block is a dict without a [previous_hash] entry and TypeError when it is
    not a dict. *)
Theorem valid_chain_untrusted (w : world) :
  (forall block, valid_chain (VList [block]) w = (Ok true, w)) /\
  valid_chain (VList []) w = (Raise IndexError, w) /\
  (forall first items rest,
      lookup_key "previous_hash" items = None ->
      valid_chain (VList (first :: VDict items :: rest)) w = (Raise KeyError, w)) /\
  (forall first block rest,
      (forall items, block <> VDict items) ->
      valid_chain (VList (first :: block :: rest)) w = (Raise TypeError, w)).
Proof.
  split; [|split; [|split]].
  - intros block. apply valid_chain_single.
  - apply valid_chain_empty.
  - intros. now apply valid_chain_no_previous_hash.
  - intros. now apply valid_chain_not_a_dict.
Qed.

Lemma valid_chain_untrusted_witness :
  valid_chain (VList [genesis "1.5"; VDict [("index", VInt 2); ("proof", VInt 35293)]])
              (fresh "1.0")
  = (Raise KeyError, fresh "1.0") /\
  valid_chain (VList [genesis "1.5"; VNone]) (fresh "1.0") = (Raise TypeError, fresh "1.0").
Proof.
  destruct (valid_chain_untrusted (fresh "1.0")) as (_ & _ & Hkey & Htype).
  split.
  - apply Hkey. reflexivity.
  - apply Htype. intros items. discriminate.
Defined.

(** C4 fails as stated: on the empty list, and on a block without
    [previous_hash], [valid_chain] raises. *)
Lemma valid_chain_raises :
  fst (valid_chain (VList []) (fresh "1.0")) = Raise IndexError /\
  fst (valid_chain (VList [genesis "1.5"; VDict [("index", VInt 2); ("proof", VInt 35293)]])
                   (fresh "1.0")) = Raise KeyError.
Proof. split; reflexivity. Qed.

(** ** Chains built by [new_block] alone *)

Lemma json_dumps_second_block (now : string) (proof : value) (h : hashobj) :
  json_dumps (second_block now proof h) = None.
Proof. cbn. now destruct (json_dumps proof). Qed.

(** A chain built by [new_block] alone has one or two blocks: the third
    call cannot hash the second block, which holds a hashlib object. *)
Lemma built_shape (w : world) :
  built w ->
  current_transactions (blockchain w) = [] /\
  ((exists now, chain (blockchain w) = VList [genesis now]) \/
   (exists now now' proof h,
       chain (blockchain w) = VList [genesis now; second_block now' proof h] /\
       (hash_id h < next_id w)%nat)).
Proof.
  induction 1 as [now w | now proof w Hb (Hcur & [(now0 & Hc) | (now0 & now1 & p & h & Hc & Hid)])].
  - rewrite Blockchain_init_world. cbn. split; [reflexivity|]. left. now exists now.
  - destruct w as [[cur c nd] nid]. cbn in Hcur, Hc. subst cur c.
    split; [reflexivity|]. right.
    exists now0, now, proof, (HashObj nid (encode (default EmptyString (json_dumps (genesis now0))))).
    split; [reflexivity | change (nid < S nid)%nat; lia].
  - destruct w as [[cur c nd] nid]. cbn in Hcur, Hc, Hid. subst cur c.
    assert (E : new_block now proof VNone (mkWorld (mkBlockchain [] (VList [genesis now0; second_block now1 p h]) nd) nid)
                = (Raise TypeError, mkWorld (mkBlockchain [] (VList [genesis now0; second_block now1 p h]) nd) nid)).
    { unfold new_block. run. cbn [py_len truthy getitem_int].
      change (index_list [genesis now0; second_block now1 p h] (-1)) with (Ok (second_block now1 p h)).
      run. rewrite hash_raises by apply json_dumps_second_block. reflexivity. }
    rewrite E. cbn. split; [reflexivity|]. right. exists now0, now1, p, h. now split.
Qed.

(** C1 (as amended). The chain of a new [Blockchain] (the genesis block
    alone) passes [valid_chain]; [new_block] stores any proof unchecked, and
    a chain built by [new_block] in which some proof fails [valid_proof]
    against the proof before it is rejected by [valid_chain]. *)
Theorem new_block_chain_validity (w : world) :
  built w ->
  exists first rest,
    chain (blockchain w) = VList (first :: rest) /\
    (rest = [] -> fst (valid_chain (chain (blockchain w)) w) = Ok true) /\
    (proofs_linked first rest = false ->
     fst (valid_chain (chain (blockchain w)) w) = Ok false).
Proof.
  intros Hb. destruct (built_shape w Hb) as (_ & [(now & Hc) | (now & now' & p & h & Hc & Hid)]);
    rewrite Hc.
  - exists (genesis now), []. split; [reflexivity|]. split; [reflexivity|].
    cbn. discriminate.
  - exists (genesis now), [second_block now' p h]. split; [reflexivity|].
    split; [discriminate|]. intros _. rewrite valid_chain_two.
    destruct (json_dumps_genesis now) as (text & Htext).
    now apply (valid_chain_loop_stale _ _ _ h text).
Qed.

Lemma built_unproved_world : built unproved_world.
Proof. apply built_new_block. apply built_init. Qed.

Lemma new_block_chain_validity_witness :
  exists first rest,
    chain (blockchain unproved_world) = VList (first :: rest) /\
    (rest = [] -> fst (valid_chain (chain (blockchain unproved_world)) unproved_world) = Ok true) /\
    (proofs_linked first rest = false ->
     fst (valid_chain (chain (blockchain unproved_world)) unproved_world) = Ok false).
Proof. apply (new_block_chain_validity unproved_world). exact built_unproved_world. Defined.

(** C1 fails as stated: after [new_block(0)] on a new Blockchain the chain
    is built by [new_block] alone and [valid_chain] returns false.  (0 is
    not a valid proof after the genesis proof 100.) *)
Lemma new_block_chain_rejected :
  built unproved_world /\
  fst (valid_chain (chain (blockchain unproved_world)) unproved_world) = Ok false /\
  valid_proof (VInt 100) (VInt 0) = false.
Proof.
  split; [exact built_unproved_world|]. split; vm_compute; reflexivity.
Qed.

(** ** [hash] *)

(** C2. [hash] does not return a digest: it returns the hashlib object.
    Hashing the genesis block twice, or the genesis block and the same block
    with its fields inserted in the opposite order, feeds the same bytes to
    SHA-256 but returns objects that are not equal to each other; and a
    block whose [previous_hash] came from [hash] cannot be hashed at all. *)
Theorem hash_returns_distinct_objects (now : string) (w : world) :
  (exists h1 w1 h2 w2 h3 w3,
      hash (genesis now) w = (Ok h1, w1) /\
      hash (genesis now) w1 = (Ok h2, w2) /\
      hash (genesis_reversed now) w2 = (Ok h3, w3) /\
      hash_data h1 = hash_data h2 /\
      hash_data h1 = hash_data h3 /\
      ne_hashobj (VHash h1) h2 = true /\
      ne_hashobj (VHash h1) h3 = true) /\
  (forall now' proof h, hash (second_block now' proof h) w = (Raise TypeError, w)).
Proof.
  split.
  - destruct (json_dumps_genesis now) as (text & Htext).
    assert (Hrev : json_dumps (genesis_reversed now) = Some text)
      by (rewrite <- Htext; reflexivity).
    do 6 eexists. rewrite !(hash_ok _ _ _ Htext), (hash_ok _ _ _ Hrev). cbn [next_id].
    split; [reflexivity|]. split; [reflexivity|]. split; [reflexivity|].
    split; [reflexivity|]. split; [reflexivity|].
    unfold ne_hashobj. cbn [hash_id next_id].
    destruct (Nat.eqb_spec (next_id w) (S (next_id w))); [lia|].
    destruct (Nat.eqb_spec (next_id w) (S (S (next_id w)))); [lia|]. now split.
  - intros now' proof h. apply hash_raises, json_dumps_second_block.
Qed.

(** A chain whose second block carries the valid proof 35293 is rejected
    all the same: the stored hashlib object never equals a new one. *)
Lemma mined_chain_rejected :
  valid_proof (VInt 100) (VInt 35293) = true /\
  exists block w,
    new_block "2.0" (VInt 35293) VNone (fresh "1.0") = (Ok block, w) /\
    fst (valid_chain (chain (blockchain w)) w) = Ok false.
Proof.
  split; [vm_compute; reflexivity|].
  do 2 eexists. split; [vm_compute; reflexivity|]. vm_compute. reflexivity.
Qed.

(** ** [new_block] and [new_transaction] on a chain that is a list *)

Lemma index_list_last (blocks : list value) (last : value) :
  index_list (blocks ++ [last]) (-1) = Ok last.
Proof.
  unfold index_list. rewrite length_app. cbn [length].
  change (-1 <? 0) with true. cbn match.
  replace (-1 + Z.of_nat (length blocks + 1)) with (Z.of_nat (length blocks)) by lia.
  destruct (Z.leb_spec 0 (Z.of_nat (length blocks))); [|lia].
  destruct (Z.ltb_spec (Z.of_nat (length blocks)) (Z.of_nat (length blocks + 1))); [|lia].
  cbn [andb]. rewrite Nat2Z.id. now rewrite list_lookup_middle.
Qed.

(** On a chain that is a list, [new_block] either raises and changes
    nothing, or appends one block, numbered with its position, that holds the
    pending transactions, and leaves the pending pool empty. *)
Lemma new_block_on_list (now : string) (proof prev : value) (w : world) (blocks : list value) :
  chain (blockchain w) = VList blocks ->
  (exists e, new_block now proof prev w = (Raise e, w)) \/
  (exists prev' nid,
      new_block now proof prev w =
      (Ok (block_dict (Z.of_nat (length blocks) + 1) now
                      (current_transactions (blockchain w)) proof prev'),
       mkWorld (mkBlockchain []
                  (VList (blocks ++
                          [block_dict (Z.of_nat (length blocks) + 1) now
                                      (current_transactions (blockchain w)) proof prev']))
                  (nodes (blockchain w))) nid)).
Proof.
  destruct w as [[cur c nd] nid]. cbn. intros ->.
  unfold new_block. run. cbn [py_len getitem_int].
  destruct (truthy prev).
  - right. exists prev, nid. reflexivity.
  - run. destruct (index_list blocks (-1)) as [last| e |] eqn:E.
    + unfold hash. destruct (json_dumps last) as [text|]; cbn.
      * right. eexists _, _. reflexivity.
      * left. now eexists.
    + left. now eexists.
    + unfold index_list in E.
      destruct (_ && _) in E; [destruct (_ !! _) in E|]; discriminate.
Qed.

Lemma new_transaction_on_numbered
  (sender recipient amount : value) (w : world) (blocks : list value) (last : value) :
  chain (blockchain w) = VList (blocks ++ [last]) ->
  getitem_str last "index" = Ok (VInt (Z.of_nat (length blocks) + 1)) ->
  new_transaction sender recipient amount w =
  (Ok (VInt (Z.of_nat (length (blocks ++ [last])) + 1)),
   mkWorld (mkBlockchain
              (current_transactions (blockchain w) ++ [transaction sender recipient amount])
              (chain (blockchain w)) (nodes (blockchain w))) (next_id w)).
Proof.
  destruct w as [[cur c nd] nid]. cbn. intros -> Hidx.
  unfold new_transaction. run. cbn [getitem_int]. rewrite index_list_last. cbn.
  rewrite Hidx. cbn. rewrite length_app. cbn [length].
  do 3 f_equal. lia.
Qed.

(** In a reachable state the chain is a non-empty list whose last block is
    numbered with the length of the chain. *)
Lemma reachable_numbered (w : world) :
  reachable w ->
  exists blocks last,
    chain (blockchain w) = VList (blocks ++ [last]) /\
    getitem_str last "index" = Ok (VInt (Z.of_nat (length blocks) + 1)).
Proof.
  induction 1 as [now w | now proof prev w Hr (blocks & last & Hc & Hi)
                 | sender recipient amount w Hr (blocks & last & Hc & Hi)].
  - rewrite Blockchain_init_world. cbn. exists [], (genesis now). now split.
  - destruct (new_block_on_list now proof prev w _ Hc) as [(e & ->) | (prev' & nid & ->)].
    + now exists blocks, last.
    + cbn. eexists (blocks ++ [last]), _. split; [reflexivity|].
      cbn. rewrite length_app. reflexivity.
  - rewrite (new_transaction_on_numbered _ _ _ _ _ _ Hc Hi). cbn.
    now exists blocks, last.
Qed.

(** C7. In every state reached by construction, [new_block] and
    [new_transaction], [new_transaction(sender, recipient, amount)] appends
    the transaction to the pending pool, changes nothing else, and returns
    the length of the chain plus 1. *)
Theorem new_transaction_index (sender recipient amount : value) (w : world) :
  reachable w ->
  exists blocks,
    chain (blockchain w) = VList blocks /\
    new_transaction sender recipient amount w =
    (Ok (VInt (Z.of_nat (length blocks) + 1)),
     mkWorld (mkBlockchain
                (current_transactions (blockchain w) ++
                   [VDict [("sender", sender); ("recipient", recipient); ("amount", amount)]])
                (chain (blockchain w)) (nodes (blockchain w))) (next_id w)).
Proof.
  intros Hr. destruct (reachable_numbered w Hr) as (blocks & last & Hc & Hi).
  exists (blocks ++ [last]). split; [assumption|].
  now apply new_transaction_on_numbered.
Qed.

Lemma submit_on_numbered
  (txs : list (value * value * value)) (w : world) (blocks : list value) (last : value) :
  chain (blockchain w) = VList (blocks ++ [last]) ->
  getitem_str last "index" = Ok (VInt (Z.of_nat (length blocks) + 1)) ->
  submit txs w =
  (Ok tt, mkWorld (mkBlockchain (current_transactions (blockchain w) ++ pending txs)
                                (chain (blockchain w)) (nodes (blockchain w))) (next_id w)).
Proof.
  revert w. induction txs as [|[[sender recipient] amount] txs IH]; intros w Hc Hi.
  - cbn. rewrite app_nil_r. now destruct w as [[cur c nd] nid].
  - cbn [submit]. unfold bind.
    rewrite (new_transaction_on_numbered _ _ _ _ _ _ Hc Hi).
    rewrite IH by assumption. cbn. now rewrite <- app_assoc.
Qed.

(** C6. After [k] transactions are submitted to a new Blockchain, [mine()]
    raises NameError on its first statement: the chain is still the genesis
    block alone and the [k] transactions are still pending. *)
Theorem mine_appends_nothing
  (fuel : nat) (now0 now node_identifier : string) (txs : list (value * value * value)) :
  exists w,
    submit txs (fresh now0) = (Ok tt, w) /\
    mine fuel now node_identifier w = (Raise (NameError "block_chain"), w) /\
    chain (blockchain w) = VList [genesis now0] /\
    current_transactions (blockchain w) = pending txs.
Proof.
  eexists. split.
  - apply (submit_on_numbered txs (fresh now0) [] (genesis now0)); reflexivity.
  - split; [apply mine_raises_NameError|]. split; reflexivity.
Qed.

Lemma new_transaction_index_witness :
  exists blocks,
    chain (blockchain busy_world) = VList blocks /\
    new_transaction (VStr "c") (VStr "d") (VInt 2) busy_world =
    (Ok (VInt (Z.of_nat (length blocks) + 1)),
     mkWorld (mkBlockchain
                (current_transactions (blockchain busy_world) ++
                   [VDict [("sender", VStr "c"); ("recipient", VStr "d"); ("amount", VInt 2)]])
                (chain (blockchain busy_world)) (nodes (blockchain busy_world)))
             (next_id busy_world)).
Proof.
  apply (new_transaction_index (VStr "c") (VStr "d") (VInt 2) busy_world).
  apply reach_new_block, reach_new_transaction, reach_init.
Defined.

(** C8. [new_block] treats a falsy [previous_hash] (0, the empty string) as
    absent: the call does what the call without [previous_hash] does, and
    the [previous_hash] entry of the block it builds is what [hash] returns
    for the last block of the chain, not the value supplied.  A truthy
    [previous_hash] is stored as given. *)
Theorem new_block_falsy_previous_hash (now : string) (proof prev : value) (w : world) :
  (truthy prev = false ->
   new_block now proof prev w = new_block now proof VNone w /\
   forall block w',
     new_block now proof prev w = (Ok block, w') ->
     exists last h,
       last_block w = (Ok last, w) /\
       fst (hash last w) = Ok h /\
       getitem_str block "previous_hash" = Ok (VHash h) /\
       VHash h <> prev) /\
  (truthy prev = true ->
   forall block w',
     new_block now proof prev w = (Ok block, w') ->
     getitem_str block "previous_hash" = Ok prev).
Proof.
  destruct w as [[cur c nd] nid]. split; intros Hprev.
  - split; [unfold new_block; now rewrite Hprev|].
    intros block w'. unfold new_block. rewrite Hprev. run.
    destruct (py_len c) as [n| |]; cbn; try discriminate.
    destruct (getitem_int c (-1)) as [last| |]; cbn; try discriminate.
    unfold hash. destruct (json_dumps last) as [text|] eqn:Htext; cbn; try discriminate.
    destruct c; cbn; try discriminate.
    intros [= <- <-]. eexists last, _. rewrite Htext. cbn.
    split; [reflexivity|]. split; [reflexivity|]. split; [reflexivity|].
    intros <-. discriminate.
  - intros block w'. unfold new_block. rewrite Hprev. run.
    destruct (py_len c) as [n| |]; cbn; try discriminate.
    destruct c; cbn; try discriminate.
    intros [= <- <-]. reflexivity.
Qed.

Lemma new_block_falsy_previous_hash_witness :
  (exists block w' last h,
      new_block "2.0" (VInt 35293) (VInt 0) (fresh "1.0") = (Ok block, w') /\
      last_block (fresh "1.0") = (Ok last, fresh "1.0") /\
      fst (hash last (fresh "1.0")) = Ok h /\
      getitem_str block "previous_hash" = Ok (VHash h)) /\
  new_block "2.0" (VInt 35293) (VStr EmptyString) (fresh "1.0")
  = new_block "2.0" (VInt 35293) VNone (fresh "1.0") /\
  (exists block w',
      new_block "2.0" (VInt 35293) (VStr "abc") (fresh "1.0") = (Ok block, w') /\
      getitem_str block "previous_hash" = Ok (VStr "abc")).
Proof.
  split; [|split].
  - destruct (new_block_falsy_previous_hash "2.0" (VInt 35293) (VInt 0) (fresh "1.0"))
      as (Hfalsy & _).
    destruct (Hfalsy eq_refl) as (_ & Hblock).
    destruct (new_block "2.0" (VInt 35293) (VInt 0) (fresh "1.0")) as [[block| |] w'] eqn:E;
      try discriminate E.
    destruct (Hblock block w' eq_refl) as (last & h & Hlast & Hh & Hfield & _).
    exists block, w', last, h. repeat split; assumption.
  - destruct (new_block_falsy_previous_hash "2.0" (VInt 35293) (VStr EmptyString) (fresh "1.0"))
      as (Hfalsy & _).
    exact (proj1 (Hfalsy eq_refl)).
  - destruct (new_block_falsy_previous_hash "2.0" (VInt 35293) (VStr "abc") (fresh "1.0"))
      as (_ & Htruthy).
    destruct (new_block "2.0" (VInt 35293) (VStr "abc") (fresh "1.0")) as [[block| |] w'] eqn:E;
      try discriminate E.
    exists block, w'. split; [reflexivity|]. exact (Htruthy eq_refl block w' eq_refl).
Defined.

(** ** Computations that only read the Blockchain object *)

Lemma reads_only_ret {A} (a : A) : reads_only (ret a).
Proof. now intros w. Qed.

Lemma reads_only_raise {A} (e : exn) : reads_only (@raise A e).
Proof. now intros w. Qed.

Lemma reads_only_lift {A} (o : outcome A) : reads_only (lift o).
Proof. now intros w. Qed.

Lemma reads_only_hash (block : value) : reads_only (hash block).
Proof. intros w. apply hash_blockchain. Qed.

Lemma reads_only_bind {A B} (m : M A) (k : A -> M B) :
  reads_only m -> (forall a, reads_only (k a)) -> reads_only (bind m k).
Proof.
  intros Hm Hk w. unfold bind. specialize (Hm w).
  destruct (m w) as [[a|e|] w1]; cbn in *; [|assumption..].
  now rewrite Hk.
Qed.

Create HintDb reads_only.
#[local] Hint Resolve reads_only_ret reads_only_raise reads_only_lift reads_only_hash
  : reads_only.

Ltac reads_only :=
  repeat first
    [ solve [auto with reads_only]
    | match goal with
      | |- reads_only (if ?b then _ else _) => destruct b
      | |- reads_only (match ?o with Some _ => _ | None => _ end) => destruct o
      end
    | apply reads_only_bind; [|intros ?] ].

Lemma reads_only_valid_chain_loop (last : value) (rest : list value) :
  reads_only (valid_chain_loop last rest).
Proof.
  revert last. induction rest as [|block rest IH]; intros last; cbn [valid_chain_loop].
  - apply reads_only_ret.
  - reads_only; apply IH.
Qed.

Lemma reads_only_valid_chain (c : value) : reads_only (valid_chain c).
Proof. unfold valid_chain. reads_only; apply reads_only_valid_chain_loop. Qed.

#[local] Hint Resolve reads_only_valid_chain : reads_only.

Lemma reads_only_consult (net : network) (node : string) (best : option value * value) :
  reads_only (consult net node best).
Proof. unfold consult. destruct (net node) as [|status json]; reads_only. Qed.

Lemma reads_only_consult_all (net : network) (order : list string) (best : option value * value) :
  reads_only (consult_all net order best).
Proof.
  revert best. induction order as [|node order IH]; intros best; cbn [consult_all].
  - apply reads_only_ret.
  - apply reads_only_bind; [apply reads_only_consult | intros best'; apply IH].
Qed.

(** ** [resolve_conflicts] and peers that fail *)

Lemma consult_skipped (net : network) (node : string) (best : option value * value) (w : world) :
  skipped net node = true -> consult net node best w = (Ok best, w).
Proof.
  unfold skipped, consult. destruct (net node) as [|status json]; [discriminate|].
  now destruct (status =? 200).
Qed.

Lemma consult_unreachable (net : network) (node : string) (best : option value * value) (w : world) :
  net node = Unreachable -> consult net node best w = (Raise RequestException, w).
Proof. unfold consult. now intros ->. Qed.

Lemma consult_all_skip (net : network) (order : list string) (best : option value * value) (w : world) :
  consult_all net order best w =
  consult_all net (List.filter (fun node => negb (skipped net node)) order) best w.
Proof.
  revert best w. induction order as [|node order IH]; intros best w; [reflexivity|].
  cbn [List.filter consult_all]. destruct (skipped net node) eqn:E; cbn [negb consult_all].
  - unfold bind at 1. rewrite consult_skipped by assumption. apply IH.
  - unfold bind. destruct (consult net node best w) as [[best'| |] w']; auto.
Qed.

Lemma consult_all_unreachable (net : network) (order : list string) (node : string)
      (best : option value * value) (w : world) :
  node ∈ order -> net node = Unreachable ->
  forall best', fst (consult_all net order best w) <> Ok best'.
Proof.
  intros Hin Hnet. revert best w.
  induction order as [|node' order IH]; intros best w best'; [now apply elem_of_nil in Hin|].
  cbn [consult_all]. unfold bind.
  apply elem_of_cons in Hin as [<- | Hin].
  - rewrite consult_unreachable by assumption. discriminate.
  - destruct (consult net node' best w) as [[b| |] w1]; cbn; [now apply IH | discriminate..].
Qed.

Lemma consult_all_unreachable_first (net : network) (pre post : list string) (node : string)
      (best : option value * value) (w : world) :
  Forall (fun node => skipped net node = true) pre -> net node = Unreachable ->
  consult_all net (pre ++ node :: post) best w = (Raise RequestException, w).
Proof.
  intros Hpre Hnet. induction Hpre as [|node' pre Hskip Hpre IH]; cbn [app consult_all]; unfold bind.
  - now rewrite consult_unreachable.
  - rewrite consult_skipped by assumption. apply IH.
Qed.

(** C5 (as amended). A peer that answers with a status other than 200 is
    passed over: the result is that of resolving among the other peers.  A
    peer whose fetch raises is not passed over: [resolve_conflicts] does not
    return and [self.chain] keeps its value; when the peers before it were
    passed over, what it raises is the exception of the fetch. *)
Theorem resolve_conflicts_failing_peer (net : network) (order : list string) (w : world) :
  resolve_conflicts net order w =
  resolve_conflicts net (List.filter (fun node => negb (skipped net node)) order) w /\
  (forall node,
      node ∈ order -> net node = Unreachable ->
      (forall replaced, fst (resolve_conflicts net order w) <> Ok replaced) /\
      blockchain (snd (resolve_conflicts net order w)) = blockchain w) /\
  (forall pre node post,
      order = pre ++ node :: post ->
      Forall (fun node => skipped net node = true) pre ->
      net node = Unreachable ->
      (exists local, chain (blockchain w) = VList local) ->
      resolve_conflicts net order w = (Raise RequestException, w)).
Proof.
  split; [|split].
  - unfold resolve_conflicts. run.
    destruct (py_len (chain (blockchain w))) as [n| |]; cbn; try reflexivity.
    now rewrite consult_all_skip.
  - intros node Hin Hnet. unfold resolve_conflicts. run.
    destruct (py_len (chain (blockchain w))) as [n| |]; cbn; [|split; [discriminate|reflexivity]..].
    pose proof (consult_all_unreachable net order node (None, VInt n) w Hin Hnet) as Hno.
    pose proof (reads_only_consult_all net order (None, VInt n) w) as Hsame.
    destruct (consult_all net order (None, VInt n) w) as [[best| |] w']; cbn in *.
    + now destruct (Hno best).
    + split; [discriminate | assumption].
    + split; [discriminate | assumption].
  - intros pre node post -> Hpre Hnet (local & Hlocal). unfold resolve_conflicts. run.
    rewrite Hlocal. cbn. now rewrite consult_all_unreachable_first.
Qed.

(** ** [register_node] *)

Section RegisterNode.

Variable bracketed_netloc_ok : string -> bool.

Lemma register_node_adds (address netloc : string) (w : world) :
  urlparse_netloc bracketed_netloc_ok address = Ok netloc ->
  register_node bracketed_netloc_ok address w = (Ok tt, add_node netloc w).
Proof. intros H. unfold register_node. run. now rewrite H. Qed.

Lemma lstrip_no_char (c : ascii) (s : string) :
  contains_char c s = false -> contains_char c (lstrip s) = false.
Proof.
  induction s as [|d s IH]; [easy|]. cbn [lstrip].
  destruct (c0_control_or_space d); [|easy].
  cbn. intros H. apply orb_false_iff in H as [_ H]. auto.
Qed.

Lemma remove_unsafe_no_char (c : ascii) (s : string) :
  contains_char c s = false -> contains_char c (remove_unsafe s) = false.
Proof.
  induction s as [|d s IH]; [easy|]. cbn. intros H.
  apply orb_false_iff in H as [Hd H].
  destruct (unsafe_byte d); cbn; [auto|]. rewrite Hd. auto.
Qed.

Lemma split_colon_no_char (c : ascii) (s before after : string) :
  contains_char c s = false -> split_colon s = Some (before, after) ->
  contains_char c after = false.
Proof.
  revert before. induction s as [|d s IH]; intros before; [easy|]. cbn.
  intros H. apply orb_false_iff in H as [Hd H].
  destruct (Ascii.eqb d ":"); [now intros [= _ <-]|].
  destruct (split_colon s) as [[b a]|]; [|easy]. intros [= _ <-]. now apply (IH b).
Qed.

Lemma after_scheme_no_char (c : ascii) (address : string) :
  contains_char c address = false -> contains_char c (after_scheme address) = false.
Proof.
  intros H. apply lstrip_no_char, remove_unsafe_no_char in H. unfold after_scheme.
  destruct (split_colon _) as [[[|d before] after]|] eqn:E; try assumption.
  destruct (_ && _); [|assumption]. now apply (split_colon_no_char _ _ _ _ H E).
Qed.

(** An address without any [/] has no authority part. *)
Lemma no_slash_no_authority (address : string) :
  contains_char "/" address = false -> has_authority address = false.
Proof.
  intros H. apply after_scheme_no_char in H. unfold has_authority.
  destruct (after_scheme address) as [|c1 [|c2 rest]]; [reflexivity| |].
  - cbn [substring]. apply String.eqb_neq. intros [= _]; discriminate.
  - cbn in H. apply orb_false_iff in H as [H1 _].
    cbn [substring]. apply String.eqb_neq. intros [= -> _]. discriminate H1.
Qed.

(** C10. [register_node] stores the network location of the parsed address
    and nothing else.  For an address without a [//] authority after the
    scheme (in particular one without any [/], such as a bare host:port) the
    network location is empty and the empty string joins the set of peers;
    registering two addresses with the same network location leaves one
    entry for it. *)
Theorem register_node_stores_netloc (w : world) :
  (forall address,
      has_authority address = false ->
      urlparse_netloc bracketed_netloc_ok address = Ok EmptyString /\
      register_node bracketed_netloc_ok address w = (Ok tt, add_node EmptyString w)) /\
  (forall address, contains_char "/" address = false -> has_authority address = false) /\
  (forall address address' netloc,
      urlparse_netloc bracketed_netloc_ok address = Ok netloc ->
      urlparse_netloc bracketed_netloc_ok address' = Ok netloc ->
      exists w1 w2,
        register_node bracketed_netloc_ok address w = (Ok tt, w1) /\
        register_node bracketed_netloc_ok address' w1 = (Ok tt, w2) /\
        nodes (blockchain w1) = {[netloc]} ∪ nodes (blockchain w) /\
        nodes (blockchain w2) = nodes (blockchain w1) /\
        (nodes (blockchain w) = ∅ -> size (nodes (blockchain w2)) = 1%nat)).
Proof.
  split; [|split].
  - intros address H.
    assert (E : urlparse_netloc bracketed_netloc_ok address = Ok EmptyString)
      by (unfold urlparse_netloc; now rewrite H).
    split; [assumption | now apply register_node_adds].
  - apply no_slash_no_authority.
  - intros address address' netloc H H'.
    exists (add_node netloc w), (add_node netloc (add_node netloc w)).
    rewrite !(register_node_adds _ netloc) by assumption. cbn.
    split; [reflexivity|]. split; [reflexivity|]. split; [reflexivity|].
    split; [now rewrite (assoc_L (∪)), union_idemp_L|].
    intros ->. rewrite union_empty_r_L, union_idemp_L. apply size_singleton.
Qed.

End RegisterNode.

Lemma register_node_stores_netloc_witness :
  (urlparse_netloc (fun _ => true) "localhost:5000" = Ok EmptyString /\
   register_node (fun _ => true) "localhost:5000" (fresh "1.0")
   = (Ok tt, add_node EmptyString (fresh "1.0"))) /\
  has_authority "localhost:5000" = false /\
  (exists w1 w2,
      register_node (fun _ => true) "http://192.168.0.5:5000" (fresh "1.0") = (Ok tt, w1) /\
      register_node (fun _ => true) "http://192.168.0.5:5000/chain" w1 = (Ok tt, w2) /\
      nodes (blockchain w1) = {["192.168.0.5:5000"]} ∪ nodes (blockchain (fresh "1.0")) /\
      nodes (blockchain w2) = nodes (blockchain w1) /\
      (nodes (blockchain (fresh "1.0")) = ∅ -> size (nodes (blockchain w2)) = 1%nat)).
Proof.
  destruct (register_node_stores_netloc (fun _ => true) (fresh "1.0")) as (Hempty & Hslash & Hdup).
  split; [|split].
  - apply Hempty. reflexivity.
  - apply Hslash. reflexivity.
  - apply Hdup; reflexivity.
Defined.

(** ** Examples of conflict resolution *)

Lemma nodes_peers_world :
  nodes (blockchain peers_world) = {["up:5000"]} ∪ ({["down:5000"]} ∪ ∅).
Proof. reflexivity. Qed.

Lemma elements_peers_world :
  elements (nodes (blockchain peers_world)) ≡ₚ ["up:5000"; "down:5000"].
Proof.
  rewrite nodes_peers_world, union_empty_r_L.
  rewrite elements_union_singleton by (apply not_elem_of_singleton_2; discriminate).
  now rewrite elements_singleton.
Qed.

Lemma resolve_conflicts_failing_peer_witness :
  (forall replaced,
      fst (resolve_conflicts flaky_net ["up:5000"; "down:5000"] peers_world) <> Ok replaced) /\
  blockchain (snd (resolve_conflicts flaky_net ["up:5000"; "down:5000"] peers_world))
  = blockchain peers_world.
Proof.
  apply (proj1 (proj2 (resolve_conflicts_failing_peer
                         flaky_net ["up:5000"; "down:5000"] peers_world)) "down:5000").
  - apply elem_of_cons. right. apply elem_of_cons. now left.
  - reflexivity.
Defined.

(** C5 fails as stated: with one peer out of reach and another offering a
    chain that would be adopted, [resolve_conflicts] raises in whatever
    order the peers are visited. *)
Lemma resolve_conflicts_unreachable_peer_raises :
  (forall order,
      order ≡ₚ elements (nodes (blockchain peers_world)) ->
      fst (resolve_conflicts flaky_net order peers_world) = Raise RequestException) /\
  fst (resolve_conflicts flaky_net ["up:5000"] peers_world) = Ok true.
Proof.
  split; [|vm_compute; reflexivity].
  intros order Horder. rewrite elements_peers_world in Horder. symmetry in Horder.
  apply Permutation_length_2_inv in Horder as [-> | ->]; vm_compute; reflexivity.
Qed.

Lemma elements_one_peer_world : elements (nodes (blockchain one_peer_world)) = ["peer:5000"].
Proof.
  change (nodes (blockchain one_peer_world)) with ({["peer:5000"]} ∪ ∅ : gset string).
  now rewrite union_empty_r_L, elements_singleton.
Qed.

(** ** The encoding that [hash] feeds to SHA-256 does not depend on the
       order in which the fields of a block were inserted *)

Lemma ascii_compare_lt_trans (a b c : ascii) :
  Ascii.compare a b = Lt -> Ascii.compare b c = Lt -> Ascii.compare a c = Lt.
Proof.
  unfold Ascii.compare. rewrite !N.compare_lt_iff. lia.
Qed.

Lemma string_compare_lt_trans (s1 s2 s3 : string) :
  String.compare s1 s2 = Lt -> String.compare s2 s3 = Lt -> String.compare s1 s3 = Lt.
Proof.
  revert s2 s3. induction s1 as [|a s1 IH]; intros [|b s2] [|c s3]; cbn; try easy.
  destruct (Ascii.compare a b) eqn:Eab; try easy;
    destruct (Ascii.compare b c) eqn:Ebc; try easy.
  - apply Ascii.compare_eq_iff in Eab as ->. apply Ascii.compare_eq_iff in Ebc as ->.
    rewrite (proj2 (N.compare_eq_iff _ _) eq_refl : Ascii.compare c c = Eq). apply IH.
  - apply Ascii.compare_eq_iff in Eab as ->. now rewrite Ebc.
  - apply Ascii.compare_eq_iff in Ebc as ->. now rewrite Eab.
  - now rewrite (ascii_compare_lt_trans a b c).
Qed.

Lemma string_leb_cases (s1 s2 : string) :
  String.leb s1 s2 = true <-> String.compare s1 s2 = Lt \/ s1 = s2.
Proof.
  unfold String.leb. split.
  - destruct (String.compare s1 s2) eqn:E; [|now left|easy].
    right. now apply String.compare_eq_iff.
  - intros [-> | ->]; [reflexivity|].
    destruct (String.compare s2 s2) eqn:E; try reflexivity.
    pose proof (String.compare_antisym s2 s2) as H. rewrite E in H. discriminate H.
Qed.

Lemma string_leb_trans (s1 s2 s3 : string) :
  String.leb s1 s2 = true -> String.leb s2 s3 = true -> String.leb s1 s3 = true.
Proof.
  rewrite !string_leb_cases. intros [H12 | ->] [H23 | ->]; auto.
  left. now apply (string_compare_lt_trans s1 s2 s3).
Qed.

Section SortByKey.

Context {A : Type}.

Lemma insert_by_key_perm (kv : string * A) (l : list (string * A)) :
  insert_by_key kv l ≡ₚ kv :: l.
Proof.
  induction l as [|kv' l IH]; cbn; [reflexivity|].
  destruct (String.leb (fst kv) (fst kv')); [reflexivity|].
  rewrite IH. apply Permutation_swap.
Qed.

Lemma sort_by_key_perm (l : list (string * A)) : sort_by_key l ≡ₚ l.
Proof.
  induction l as [|kv l IH]; cbn; [reflexivity|].
  now rewrite insert_by_key_perm, IH.
Qed.

Lemma insert_by_key_sorted (kv : string * A) (l : list (string * A)) :
  StronglySorted key_le l -> StronglySorted key_le (insert_by_key kv l).
Proof.
  induction 1 as [|kv' l Hs IH Hall]; cbn.
  - repeat constructor.
  - destruct (String.leb (fst kv) (fst kv')) eqn:E.
    + constructor; [now constructor|]. constructor; [exact E|].
      eapply Forall_impl; [exact Hall|]. intros kv'' H. unfold key_le in *.
      now apply (string_leb_trans _ (fst kv')).
    + constructor; [assumption|]. rewrite insert_by_key_perm.
      constructor; [|assumption]. unfold key_le.
      destruct (String.leb_total (fst kv) (fst kv')) as [H|H]; [congruence | exact H].
Qed.

Lemma sort_by_key_sorted (l : list (string * A)) : StronglySorted key_le (sort_by_key l).
Proof.
  induction l as [|kv l IH]; cbn; [constructor | now apply insert_by_key_sorted].
Qed.

Lemma same_key_same_item (l : list (string * A)) (kv kv' : string * A) :
  NoDup (map fst l) -> kv ∈ l -> kv' ∈ l -> fst kv = fst kv' -> kv = kv'.
Proof.
  induction l as [|x l IH]; cbn; intros Hnd Hin Hin' Hk; [now apply elem_of_nil in Hin|].
  apply NoDup_cons in Hnd as [Hx Hnd].
  apply elem_of_cons in Hin as [-> | Hin]; apply elem_of_cons in Hin' as [-> | Hin'].
  - reflexivity.
  - destruct Hx. rewrite Hk. apply list_elem_of_In, in_map, list_elem_of_In, Hin'.
  - destruct Hx. rewrite <- Hk. apply list_elem_of_In, in_map, list_elem_of_In, Hin.
  - now apply IH.
Qed.

(** Items with distinct keys are sorted the same way whatever their order. *)
Lemma sort_by_key_order (l l' : list (string * A)) :
  NoDup (map fst l) -> l ≡ₚ l' -> sort_by_key l = sort_by_key l'.
Proof.
  intros Hnd Hperm.
  apply (StronglySorted_unique_strong key_le); try apply sort_by_key_sorted.
  - intros kv kv' Hin Hin' H H'. rewrite sort_by_key_perm in Hin, Hin'.
    rewrite <- Hperm in Hin'.
    apply (same_key_same_item l); try assumption.
    now apply String.leb_antisym.
  - now rewrite !sort_by_key_perm.
Qed.

End SortByKey.

Lemma encoded_items_cons (k : string) (v : value) (items : list (string * value)) :
  encoded_items ((k, v) :: items) =
  match json_dumps v, encoded_items items with
  | Some text, Some rest => Some ((k, text) :: rest)
  | _, _ => None
  end.
Proof.
  unfold encoded_items. cbn.
  destruct (json_dumps v); [|reflexivity].
  now destruct (all_some _).
Qed.

Lemma encoded_items_keys (items : list (string * value)) (enc : list (string * string)) :
  encoded_items items = Some enc -> map fst enc = map fst items.
Proof.
  revert enc. induction items as [|[k v] items IH]; intros enc.
  - now intros [= <-].
  - rewrite encoded_items_cons. destruct (json_dumps v); [|easy].
    destruct (encoded_items items) as [rest|]; [|easy].
    intros [= <-]. cbn. f_equal. now apply IH.
Qed.

Lemma encoded_items_perm (items items' : list (string * value)) :
  items ≡ₚ items' ->
  match encoded_items items, encoded_items items' with
  | Some enc, Some enc' => enc ≡ₚ enc'
  | None, None => True
  | _, _ => False
  end.
Proof.
  induction 1 as [|[k v] l l' Hperm IH|[k1 v1] [k2 v2] l|l1 l2 l3 H12 IH12 H23 IH23].
  - cbn. reflexivity.
  - rewrite !encoded_items_cons. destruct (json_dumps v); [|easy].
    destruct (encoded_items l), (encoded_items l'); try easy. now constructor.
  - rewrite !encoded_items_cons.
    destruct (json_dumps v1), (json_dumps v2), (encoded_items l); try easy.
    apply Permutation_swap.
  - destruct (encoded_items l1), (encoded_items l2), (encoded_items l3); try easy.
    now transitivity l0.
Qed.

Lemma json_dumps_dict (items : list (string * value)) :
  json_dumps (VDict items) =
  match encoded_items items with
  | Some enc =>
      Some ("{" +:+ join ", " (map (fun kp => json_str (fst kp) +:+ ": " +:+ snd kp)
                                   (sort_by_key enc)) +:+ "}")
  | None => None
  end.
Proof. unfold encoded_items. cbn [json_dumps]. now destruct (all_some _). Qed.

(** [json.dumps(block, sort_keys=True)] gives the same text for the same
    fields inserted in another order. *)
Lemma json_dumps_field_order (items items' : list (string * value)) :
  NoDup (map fst items) -> items ≡ₚ items' ->
  json_dumps (VDict items) = json_dumps (VDict items').
Proof.
  intros Hnd Hperm. rewrite !json_dumps_dict.
  pose proof (encoded_items_perm items items' Hperm) as H.
  destruct (encoded_items items) as [enc|] eqn:E, (encoded_items items') as [enc'|];
    try easy.
  rewrite (sort_by_key_order enc enc'); [reflexivity | | assumption].
  now rewrite (encoded_items_keys items enc E).
Qed.

(** Hashing a block and the same block with its fields inserted in another
    order feeds the same bytes to SHA-256, and still returns two objects that
    are not equal. *)
Lemma hash_field_order (items items' : list (string * value)) (w w1 : world) (h1 : hashobj) :
  NoDup (map fst items) -> items ≡ₚ items' ->
  hash (VDict items) w = (Ok h1, w1) ->
  exists h2 w2,
    hash (VDict items') w1 = (Ok h2, w2) /\
    hash_data h1 = hash_data h2 /\
    ne_hashobj (VHash h1) h2 = true.
Proof.
  intros Hnd Hperm. unfold hash. rewrite <- (json_dumps_field_order items items' Hnd Hperm).
  destruct (json_dumps (VDict items)) as [text|]; [|discriminate].
  intros [= <- <-]. do 2 eexists. split; [reflexivity|]. split; [reflexivity|].
  unfold ne_hashobj. cbn.
  destruct (Nat.eqb_spec (next_id w) (S (next_id w))); [lia | reflexivity].
Qed.


(** * More properties of the methods *)

(** ** What [json.dumps] and [hash] accept *)

Lemma all_some_None {A} (f : A -> option string) (g : A -> bool) (l : list A) :
  Forall (fun x => f x = None <-> g x = true) l ->
  all_some (map f l) = None <-> existsb g l = true.
Proof.
  induction 1 as [|x l Hx Hl IH]; cbn; [easy|].
  destruct (f x) as [t|] eqn:E.
  - destruct (g x) eqn:G; [destruct Hx as [_ Hx]; now specialize (Hx eq_refl)|].
    cbn. destruct (all_some (map f l)) eqn:El.
    + split; [discriminate|]. intros H. apply IH in H. congruence.
    + split; [intros _; now apply IH | reflexivity].
  - destruct Hx as [Hx _]. rewrite (Hx eq_refl). easy.
Qed.

Lemma json_dumps_None (v : value) : json_dumps v = None <-> has_hash v = true.
Proof.
  induction v as [| b | n | r | s | xs IH | items IH | h] using value_induction;
    cbn [json_dumps has_hash]; try easy.
  - pose proof (all_some_None json_dumps has_hash xs IH) as H.
    destruct (all_some (map json_dumps xs)) eqn:E.
    + split; [discriminate|]. intros X. apply H in X. congruence.
    + split; [intros _; now apply H | reflexivity].
  - pose proof (all_some_None (fun kv => json_dumps (snd kv))
                              (fun kv => has_hash (snd kv)) items IH) as H.
    destruct (all_some (map (fun kv => json_dumps (snd kv)) items)) eqn:E.
    + split; [discriminate|]. intros X. apply H in X. congruence.
    + split; [intros _; now apply H | reflexivity].
Qed.

(** X1. [hash(block)] raises TypeError, changing nothing, exactly when the
    block holds a hashlib object somewhere; otherwise it returns a new
    object, whose identity no earlier object has, and leaves the Blockchain
    object alone. *)
Theorem hash_accepts_json_only (block : value) (w : world) :
  (has_hash block = true -> hash block w = (Raise TypeError, w)) /\
  (has_hash block = false ->
   exists h,
     hash block w = (Ok h, mkWorld (blockchain w) (S (next_id w))) /\
     hash_id h = next_id w).
Proof.
  split; intros H.
  - apply hash_raises. now apply json_dumps_None.
  - destruct (json_dumps block) as [text|] eqn:E.
    + eexists. rewrite (hash_ok _ _ _ E). now split.
    + apply json_dumps_None in E. congruence.
Qed.

Lemma hash_accepts_json_only_witness :
  hash (second_block "2.0" (VInt 7) (HashObj 0 [])) (fresh "1.0")
  = (Raise TypeError, fresh "1.0") /\
  exists h,
    hash (genesis "1.0") (fresh "1.0")
    = (Ok h, mkWorld (blockchain (fresh "1.0")) (S (next_id (fresh "1.0")))) /\
    hash_id h = next_id (fresh "1.0").
Proof.
  destruct (hash_accepts_json_only (second_block "2.0" (VInt 7) (HashObj 0 [])) (fresh "1.0"))
    as (Hraise & _).
  destruct (hash_accepts_json_only (genesis "1.0") (fresh "1.0")) as (_ & Hok).
  split; [apply Hraise | apply Hok]; reflexivity.
Defined.

(** ** [new_block] *)

(** X2. Once the last block of the chain holds a hashlib object, a call of
    [new_block] that leaves [previous_hash] out (or gives a falsy one)
    raises TypeError and changes nothing: the chain cannot grow that way any
    more. *)
Theorem new_block_blocked
  (now : string) (proof prev : value) (w : world) (blocks : list value) (last : value) :
  chain (blockchain w) = VList (blocks ++ [last]) ->
  has_hash last = true ->
  truthy prev = false ->
  new_block now proof prev w = (Raise TypeError, w).
Proof.
  destruct w as [[cur c nd] nid]. cbn. intros -> Hlast Hprev.
  unfold new_block. rewrite Hprev. run. cbn [py_len getitem_int].
  rewrite index_list_last. run.
  rewrite hash_raises by now apply json_dumps_None. reflexivity.
Qed.

Lemma new_block_blocked_witness :
  new_block "3.0" (VInt 1) VNone unproved_world = (Raise TypeError, unproved_world).
Proof.
  apply (new_block_blocked "3.0" (VInt 1) VNone unproved_world
           [genesis "1.0"]
           (second_block "2.0" (VInt 0)
              (HashObj 0 (encode (default EmptyString (json_dumps (genesis "1.0"))))))).
  - reflexivity.
  - reflexivity.
  - reflexivity.
Defined.

(** X3. On a chain that is a list, [new_block] with a truthy
    [previous_hash] always succeeds: it appends exactly one block, numbered
    with the new length of the chain, that holds the given proof and
    [previous_hash] and the pending transactions in their order; afterwards
    the pending pool is empty, the peers are the same and [last_block] is
    the new block. *)
Theorem new_block_commits
  (now : string) (proof prev : value) (w : world) (blocks : list value) :
  chain (blockchain w) = VList blocks ->
  truthy prev = true ->
  exists block w',
    new_block now proof prev w = (Ok block, w') /\
    chain (blockchain w') = VList (blocks ++ [block]) /\
    current_transactions (blockchain w') = [] /\
    nodes (blockchain w') = nodes (blockchain w) /\
    next_id w' = next_id w /\
    last_block w' = (Ok block, w') /\
    getitem_str block "index" = Ok (VInt (Z.of_nat (length blocks) + 1)) /\
    getitem_str block "transactions" = Ok (VList (current_transactions (blockchain w))) /\
    getitem_str block "proof" = Ok proof /\
    getitem_str block "previous_hash" = Ok prev.
Proof.
  destruct w as [[cur c nd] nid]. cbn. intros -> Hprev.
  do 2 eexists. split.
  - unfold new_block. rewrite Hprev. run. cbn [py_len]. run. reflexivity.
  - cbn. repeat (split; [reflexivity|]). split; [|now repeat split].
    unfold last_block. run. cbn [getitem_int]. now rewrite index_list_last.
Qed.

Lemma new_block_commits_witness :
  exists block w',
    new_block "2.0" (VInt 35293) (VStr "abc") (fresh "1.0") = (Ok block, w') /\
    chain (blockchain w') = VList ([genesis "1.0"] ++ [block]) /\
    current_transactions (blockchain w') = [] /\
    nodes (blockchain w') = nodes (blockchain (fresh "1.0")) /\
    next_id w' = next_id (fresh "1.0") /\
    last_block w' = (Ok block, w') /\
    getitem_str block "index" = Ok (VInt (Z.of_nat (length [genesis "1.0"]) + 1)) /\
    getitem_str block "transactions"
    = Ok (VList (current_transactions (blockchain (fresh "1.0")))) /\
    getitem_str block "proof" = Ok (VInt 35293) /\
    getitem_str block "previous_hash" = Ok (VStr "abc").
Proof.
  apply (new_block_commits "2.0" (VInt 35293) (VStr "abc") (fresh "1.0") [genesis "1.0"]);
    reflexivity.
Defined.

(** X4. In every state reached by construction, [new_block] and
    [new_transaction], the chain is a non-empty list and the block at
    position [i] (from 0) carries the index [i + 1]. *)
Theorem reachable_chain_numbered (w : world) :
  reachable w ->
  exists blocks,
    chain (blockchain w) = VList blocks /\ blocks <> [] /\ numbered blocks.
Proof.
  induction 1 as [now w | now proof prev w Hr (blocks & Hc & Hne & Hnum)
                 | sender recipient amount w Hr IH].
  - rewrite Blockchain_init_world. cbn. exists [genesis now].
    split; [reflexivity|]. split; [discriminate|].
    intros [|i] block; cbn; [now intros [= <-] | discriminate].
  - destruct (new_block_on_list now proof prev w _ Hc) as [(e & ->) | (prev' & nid & ->)].
    + now exists blocks.
    + cbn. eexists. split; [reflexivity|]. split; [now destruct blocks|].
      intros i block Hi. apply lookup_app_Some in Hi as [Hi | [Hlen Hi]].
      * now apply Hnum.
      * destruct (i - length blocks)%nat as [|j] eqn:Ej; [|discriminate].
        cbn in Hi. injection Hi as <-. cbn. do 2 f_equal. lia.
  - destruct (reachable_numbered w Hr) as (blocks & last & Hc & Hi).
    rewrite (new_transaction_on_numbered _ _ _ _ _ _ Hc Hi). exact IH.
Qed.

Lemma reachable_chain_numbered_witness :
  exists blocks,
    chain (blockchain busy_world) = VList blocks /\ blocks <> [] /\ numbered blocks.
Proof.
  apply (reachable_chain_numbered busy_world).
  apply reach_new_block, reach_new_transaction, reach_init.
Defined.

(** ** [new_transaction] *)

(** X5. Transactions submitted one after the other in a reachable state are
    appended to the pending pool in the order of submission, and a
    following [new_block] with a truthy [previous_hash] puts exactly the
    pool (what was pending before, then the new ones) in the block it
    appends, and empties the pool. *)
Theorem submit_then_new_block
  (txs : list (value * value * value)) (now : string) (proof prev : value) (w : world) :
  reachable w ->
  truthy prev = true ->
  exists blocks w1 block w2,
    chain (blockchain w) = VList blocks /\
    submit txs w = (Ok tt, w1) /\
    current_transactions (blockchain w1) = current_transactions (blockchain w) ++ pending txs /\
    chain (blockchain w1) = VList blocks /\
    new_block now proof prev w1 = (Ok block, w2) /\
    getitem_str block "transactions"
    = Ok (VList (current_transactions (blockchain w) ++ pending txs)) /\
    chain (blockchain w2) = VList (blocks ++ [block]) /\
    current_transactions (blockchain w2) = [].
Proof.
  intros Hr Hprev. destruct (reachable_numbered w Hr) as (blocks & last & Hc & Hi).
  pose proof (submit_on_numbered txs w blocks last Hc Hi) as Hs.
  set (w1 := mkWorld (mkBlockchain (current_transactions (blockchain w) ++ pending txs)
                                   (chain (blockchain w)) (nodes (blockchain w)))
                     (next_id w)) in *.
  assert (Hc1 : chain (blockchain w1) = VList (blocks ++ [last])) by exact Hc.
  destruct (new_block_on_list now proof prev w1 _ Hc1) as [(e & He) | (prev' & nid & Hb)].
  - exfalso. revert He. unfold new_block. rewrite Hprev. subst w1. run.
    rewrite Hc. cbn. discriminate.
  - exists (blocks ++ [last]), w1. do 2 eexists.
    split; [assumption|]. split; [assumption|]. split; [reflexivity|].
    split; [assumption|]. split; [exact Hb|]. now repeat split.
Qed.

Lemma submit_then_new_block_witness :
  exists blocks w1 block w2,
    chain (blockchain busy_world) = VList blocks /\
    submit [(VStr "a", VStr "b", VInt 5); (VStr "c", VStr "d", VInt 6)] busy_world
    = (Ok tt, w1) /\
    current_transactions (blockchain w1)
    = current_transactions (blockchain busy_world)
      ++ pending [(VStr "a", VStr "b", VInt 5); (VStr "c", VStr "d", VInt 6)] /\
    chain (blockchain w1) = VList blocks /\
    new_block "4.0" (VInt 9) (VInt 1) w1 = (Ok block, w2) /\
    getitem_str block "transactions"
    = Ok (VList (current_transactions (blockchain busy_world)
                 ++ pending [(VStr "a", VStr "b", VInt 5); (VStr "c", VStr "d", VInt 6)])) /\
    chain (blockchain w2) = VList (blocks ++ [block]) /\
    current_transactions (blockchain w2) = [].
Proof.
  apply (submit_then_new_block
           [(VStr "a", VStr "b", VInt 5); (VStr "c", VStr "d", VInt 6)]
           "4.0" (VInt 9) (VInt 1) busy_world).
  - apply reach_new_block, reach_new_transaction, reach_init.
  - reflexivity.
Defined.

(** X6. [new_transaction] appends to the pending pool before it reads the
    index of the last block: when the last block is a dict without an
    [index] entry (a chain adopted from a peer can end so), the call raises
    KeyError and the transaction is in the pool all the same. *)
Theorem new_transaction_without_index
  (sender recipient amount : value) (w : world)
  (blocks : list value) (items : list (string * value)) :
  chain (blockchain w) = VList (blocks ++ [VDict items]) ->
  lookup_key "index" items = None ->
  new_transaction sender recipient amount w =
  (Raise KeyError,
   mkWorld (mkBlockchain
              (current_transactions (blockchain w) ++ [transaction sender recipient amount])
              (chain (blockchain w)) (nodes (blockchain w))) (next_id w)).
Proof.
  destruct w as [[cur c nd] nid]. cbn. intros -> Hidx.
  unfold new_transaction. run. cbn [getitem_int]. rewrite index_list_last. cbn.
  now rewrite Hidx.
Qed.

Lemma new_transaction_without_index_witness :
  new_transaction (VStr "a") (VStr "b") (VInt 5) adopted_world =
  (Raise KeyError,
   mkWorld (mkBlockchain
              (current_transactions (blockchain adopted_world)
               ++ [transaction (VStr "a") (VStr "b") (VInt 5)])
              (chain (blockchain adopted_world)) (nodes (blockchain adopted_world)))
           (next_id adopted_world)).
Proof.
  apply (new_transaction_without_index (VStr "a") (VStr "b") (VInt 5) adopted_world
           [] [("proof", VInt 1)]); reflexivity.
Defined.

(** ** [valid_chain] *)

(** X7. [valid_chain] has no effect on the Blockchain object: whatever it
    is given, and whether it returns or raises, the chain, the pending pool
    and the peers are afterwards what they were. *)
Theorem valid_chain_no_effect (c : value) (w : world) :
  chain (blockchain (snd (valid_chain c w))) = chain (blockchain w) /\
  current_transactions (blockchain (snd (valid_chain c w)))
  = current_transactions (blockchain w) /\
  nodes (blockchain (snd (valid_chain c w))) = nodes (blockchain w).
Proof. now rewrite (reads_only_valid_chain c w). Qed.

Lemma lookup_key_has_hash (k : string) (items : list (string * value)) (v : value) :
  existsb (fun kv => has_hash (snd kv)) items = false ->
  lookup_key k items = Some v -> has_hash v = false.
Proof.
  induction items as [|[k' v'] items IH]; cbn; [discriminate|].
  intros H. apply orb_false_iff in H as [Hv Hrest].
  destruct (String.eqb k k'); [now intros [= <-] | auto].
Qed.

(** An entry of a block without hashlib objects differs from any hashlib
    object. *)
Lemma ne_hashobj_json (block prev : value) (k : string) (h : hashobj) :
  has_hash block = false -> getitem_str block k = Ok prev -> ne_hashobj prev h = true.
Proof.
  intros Hblock Hprev. destruct block; try discriminate Hprev. cbn in Hprev, Hblock.
  destruct (lookup_key k items) as [v|] eqn:El; [|discriminate].
  injection Hprev as ->. pose proof (lookup_key_has_hash _ _ _ Hblock El) as Hv.
  now destruct prev.
Qed.

Lemma valid_chain_loop_json (first block : value) (rest : list value) (w : world) :
  has_hash block = false ->
  fst (valid_chain_loop first (block :: rest) w) <> Ok true.
Proof.
  intros Hblock. cbn [valid_chain_loop]. run.
  destruct (getitem_str block "previous_hash") as [prev| |] eqn:Eprev; cbn; try discriminate.
  unfold hash. destruct (json_dumps first) as [text|]; cbn; [|discriminate].
  rewrite (ne_hashobj_json block prev _ _ Hblock Eprev). cbn. discriminate.
Qed.

Lemma index_list_first (x : value) (l : list value) : index_list (x :: l) 0 = Ok x.
Proof.
  unfold index_list. change (0 <? 0) with false. cbn match. cbn [length].
  destruct (Z.ltb_spec 0 (Z.of_nat (S (length l)))); [reflexivity | lia].
Qed.

Lemma valid_chain_cons (first : value) (rest : list value) (w : world) :
  valid_chain (VList (first :: rest)) w = valid_chain_loop first rest w.
Proof. unfold valid_chain. run. cbn [getitem_int]. now rewrite index_list_first. Qed.

Lemma valid_chain_str (a : ascii) (s : string) (w : world) :
  valid_chain (VStr (String a s)) w
  = valid_chain_loop (VStr (String a EmptyString)) (chars s) w.
Proof.
  unfold valid_chain. run. cbn [getitem_int chars]. now rewrite index_list_first.
Qed.

(** When [valid_chain] returns true on data without hashlib objects, the
    data is a sequence of exactly one item. *)
Lemma valid_chain_true_single (c : value) (w : world) :
  has_hash c = false -> fst (valid_chain c w) = Ok true -> py_len c = Ok 1.
Proof.
  intros Hc. destruct c; try (cbn; discriminate).
  - destruct s as [|a [|b s]]; [cbn; discriminate | reflexivity |].
    rewrite valid_chain_str. cbn [chars]. intros H.
    now destruct (valid_chain_loop_json (VStr (String a EmptyString))
                    (VStr (String b EmptyString)) (chars s) w eq_refl).
  - destruct xs as [|first [|block rest]]; [cbn; discriminate | reflexivity |].
    rewrite valid_chain_cons.
    cbn in Hc. apply orb_false_iff in Hc as [_ Hc]. apply orb_false_iff in Hc as [Hb _].
    intros H. now destruct (valid_chain_loop_json first block rest w Hb).
Qed.

Lemma valid_chain_true_nonempty (c : value) (w : world) :
  fst (valid_chain c w) = Ok true -> nonempty_sequence c = true.
Proof.
  destruct c; try (cbn; discriminate).
  - now destruct s.
  - now destruct xs.
Qed.

(** X8. [valid_chain] never accepts a chain of two or more blocks that
    came as JSON (no hashlib object in its second block): the hashlib object
    that [hash] returns is never equal to the stored [previous_hash].  It
    returns false when the first block can be serialised and the second is a
    dict with a [previous_hash] entry. *)
Theorem valid_chain_rejects_longer (first block : value) (rest : list value) (w : world) :
  has_hash block = false ->
  fst (valid_chain (VList (first :: block :: rest)) w) <> Ok true /\
  (has_hash first = false ->
   (exists prev, getitem_str block "previous_hash" = Ok prev) ->
   fst (valid_chain (VList (first :: block :: rest)) w) = Ok false).
Proof.
  intros Hblock. rewrite valid_chain_two. split; [now apply valid_chain_loop_json|].
  intros Hfirst (prev & Hprev). cbn [valid_chain_loop]. run. rewrite Hprev. cbn.
  destruct (json_dumps first) as [text|] eqn:E.
  - rewrite (hash_ok _ _ _ E). now rewrite (ne_hashobj_json block prev _ _ Hblock Hprev).
  - apply json_dumps_None in E. congruence.
Qed.

Lemma valid_chain_rejects_longer_witness :
  fst (valid_chain (VList [genesis "1.0";
                           block_dict 2 "2.0" [] (VInt 35293) (VStr "abc")]) (fresh "1.0"))
  <> Ok true /\
  fst (valid_chain (VList [genesis "1.0";
                           block_dict 2 "2.0" [] (VInt 35293) (VStr "abc")]) (fresh "1.0"))
  = Ok false.
Proof.
  destruct (valid_chain_rejects_longer
              (genesis "1.0") (block_dict 2 "2.0" [] (VInt 35293) (VStr "abc")) []
              (fresh "1.0") eq_refl) as (Hno & Hfalse).
  split; [exact Hno|]. apply Hfalse; [reflexivity | now eexists].
Defined.

(** ** [resolve_conflicts] *)

(** One turn of the loop either keeps the best chain so far or replaces it
    by the chain of this peer, which answered 200, reported more than the
    best length so far and passed [valid_chain]. *)
Lemma consult_cases (net : network) (node : string) (best best1 : option value * value)
      (w w1 : world) :
  consult net node best w = (Ok best1, w1) ->
  best1 = best \/
  exists body c len,
    net node = Response 200 (Some body) /\
    getitem_str body "length" = Ok len /\
    getitem_str body "chain" = Ok c /\
    py_gt len (snd best) = Ok true /\
    fst (valid_chain c w) = Ok true /\
    best1 = (Some c, len).
Proof.
  unfold consult. destruct (net node) as [|status json]; [discriminate|].
  destruct (status =? 200) eqn:Es; [|intros [= <- <-]; now left].
  apply Z.eqb_eq in Es as ->. destruct json as [body|]; run; [|discriminate].
  destruct (getitem_str body "length") as [len| |] eqn:El; cbn -[valid_chain]; try discriminate.
  destruct (getitem_str body "chain") as [c| |] eqn:Ec; cbn -[valid_chain]; try discriminate.
  destruct (py_gt len (snd best)) as [[|]| |] eqn:Eg; cbn -[valid_chain]; try discriminate.
  - destruct (valid_chain c w) as [[[|]| |] w2] eqn:Ev; run; try discriminate.
    + intros [= <- <-]. right. exists body, c, len. rewrite Ev. now repeat split.
    + intros [= <- <-]. now left.
  - unfold ret. intros [= <- <-]. now left.
Qed.

Lemma consult_all_keeps (Q : value -> Prop) (net : network) (order : list string)
      (best best' : option value * value) (w w' : world) :
  (forall node body c w0,
      node ∈ order -> net node = Response 200 (Some body) ->
      getitem_str body "chain" = Ok c -> fst (valid_chain c w0) = Ok true -> Q c) ->
  (forall c, fst best = Some c -> Q c) ->
  consult_all net order best w = (Ok best', w') ->
  forall c, fst best' = Some c -> Q c.
Proof.
  revert best w. induction order as [|node order IH]; intros best w HQ Hbest; cbn [consult_all].
  - unfold ret. now intros [= <- <-].
  - unfold bind. destruct (consult net node best w) as [[best1| |] w1] eqn:E; try discriminate.
    apply IH.
    + intros n body c w0 Hin. apply HQ. now apply elem_of_cons; right.
    + destruct (consult_cases _ _ _ _ _ _ E) as [-> | (body & c & len & Hn & _ & Hc & _ & Hv & ->)];
        [assumption|].
      cbn. intros c' [= <-]. apply (HQ node body c w); [now apply elem_of_cons; left|auto..].
Qed.

(** [resolve_conflicts] either leaves the Blockchain object alone, or
    returns true and sets the chain to one that passed [valid_chain]. *)
Lemma resolve_conflicts_cases (Q : value -> Prop) (net : network) (order : list string)
      (w : world) :
  (forall node body c w0,
      node ∈ order -> net node = Response 200 (Some body) ->
      getitem_str body "chain" = Ok c -> fst (valid_chain c w0) = Ok true -> Q c) ->
  (fst (resolve_conflicts net order w) <> Ok true /\
   blockchain (snd (resolve_conflicts net order w)) = blockchain w) \/
  (fst (resolve_conflicts net order w) = Ok true /\
   exists c,
     Q c /\
     blockchain (snd (resolve_conflicts net order w))
     = mkBlockchain (current_transactions (blockchain w)) c (nodes (blockchain w))).
Proof.
  intros HQ. unfold resolve_conflicts. run.
  destruct (py_len (chain (blockchain w))) as [n| |]; cbn; try (left; split; [discriminate|reflexivity]).
  pose proof (reads_only_consult_all net order (None, VInt n) w) as Hsame.
  destruct (consult_all net order (None, VInt n) w) as [[best| |] w1] eqn:E; cbn in *;
    try (left; split; [discriminate|assumption]).
  destruct (fst best) as [c|] eqn:Eb; [|left; split; [discriminate|assumption]].
  destruct (truthy c); run; [|left; split; [discriminate|assumption]].
  right. split; [reflexivity|]. exists c. rewrite Hsame. split; [|reflexivity].
  apply (consult_all_keeps Q net order (None, VInt n) best w w1 HQ); [discriminate|assumption..].
Qed.

(** X9. [resolve_conflicts] never touches the pending pool or the peers.
    When it returns false or raises the chain is what it was; when it
    returns true the chain is now a chain that a peer of the visited ones
    sent with status 200 and that passed [valid_chain]. *)
Theorem resolve_conflicts_outcome (net : network) (order : list string) (w : world) :
  current_transactions (blockchain (snd (resolve_conflicts net order w)))
  = current_transactions (blockchain w) /\
  nodes (blockchain (snd (resolve_conflicts net order w))) = nodes (blockchain w) /\
  (fst (resolve_conflicts net order w) = Ok false \/
   (exists e, fst (resolve_conflicts net order w) = Raise e) ->
   chain (blockchain (snd (resolve_conflicts net order w))) = chain (blockchain w)) /\
  (fst (resolve_conflicts net order w) = Ok true ->
   exists node body w0,
     node ∈ order /\
     net node = Response 200 (Some body) /\
     getitem_str body "chain" = Ok (chain (blockchain (snd (resolve_conflicts net order w)))) /\
     fst (valid_chain (chain (blockchain (snd (resolve_conflicts net order w)))) w0) = Ok true).
Proof.
  destruct (resolve_conflicts_cases
              (fun c => exists node body w0,
                   node ∈ order /\ net node = Response 200 (Some body) /\
                   getitem_str body "chain" = Ok c /\ fst (valid_chain c w0) = Ok true)
              net order w) as [(Hr & Hb) | (Hr & c & Hc & Hb)].
  - intros node body c w0 Hin Hnet Hchain Hvalid. now exists node, body, w0.
  - rewrite Hb. split; [reflexivity|]. split; [reflexivity|].
    split; [reflexivity | intros H; now destruct Hr].
  - split; [now rewrite Hb|]. split; [now rewrite Hb|].
    split; [intros [H | (e & H)]; rewrite Hr in H; discriminate H|].
    intros _. rewrite Hb. exact Hc.
Qed.

Lemma resolve_conflicts_outcome_witness :
  chain (blockchain (snd (resolve_conflicts flaky_net ["up:5000"; "down:5000"] peers_world)))
  = chain (blockchain peers_world) /\
  exists node body w0,
    node ∈ ["peer:5000"] /\
    lying_net node = Response 200 (Some body) /\
    getitem_str body "chain"
    = Ok (chain (blockchain (snd (resolve_conflicts lying_net ["peer:5000"] one_peer_world)))) /\
    fst (valid_chain
           (chain (blockchain (snd (resolve_conflicts lying_net ["peer:5000"] one_peer_world))))
           w0) = Ok true.
Proof.
  split.
  - apply (resolve_conflicts_outcome flaky_net ["up:5000"; "down:5000"] peers_world).
    right. exists RequestException. vm_compute. reflexivity.
  - apply (resolve_conflicts_outcome lying_net ["peer:5000"] one_peer_world).
    vm_compute. reflexivity.
Defined.

(** X10. When the peers send JSON (no hashlib object can come over the
    wire), a chain that [resolve_conflicts] adopts has exactly one item,
    whatever length its peer reported: [valid_chain] accepts nothing longer. *)
Theorem resolve_conflicts_adopts_single (net : network) (order : list string) (w : world) :
  (forall node status body, net node = Response status (Some body) -> has_hash body = false) ->
  fst (resolve_conflicts net order w) = Ok true ->
  py_len (chain (blockchain (snd (resolve_conflicts net order w)))) = Ok 1.
Proof.
  intros Hjson Htrue.
  destruct (resolve_conflicts_cases (fun c => py_len c = Ok 1) net order w)
    as [(Hr & _) | (_ & c & Hc & ->)]; [|now destruct Hr|exact Hc].
  intros node body c w0 _ Hnet Hchain. apply valid_chain_true_single.
  pose proof (Hjson node 200 body Hnet) as Hbody.
  destruct body; try discriminate Hchain. cbn in Hchain, Hbody.
  destruct (lookup_key "chain" items) as [v|] eqn:El; [|discriminate].
  injection Hchain as ->. now apply (lookup_key_has_hash "chain" items).
Qed.

Lemma resolve_conflicts_adopts_single_witness :
  py_len (chain (blockchain (snd (resolve_conflicts lying_net ["peer:5000"] one_peer_world))))
  = Ok 1.
Proof.
  apply (resolve_conflicts_adopts_single lying_net ["peer:5000"] one_peer_world).
  - intros node status body [= _ <-]. reflexivity.
  - vm_compute. reflexivity.
Defined.

Lemma consult_not_longer (net : network) (node : string) (best_chain : option value)
      (m n : Z) (body c : value) (w : world) :
  net node = Response 200 (Some body) ->
  getitem_str body "length" = Ok (VInt n) ->
  getitem_str body "chain" = Ok c ->
  n <= m ->
  consult net node (best_chain, VInt m) w = (Ok (best_chain, VInt m), w).
Proof.
  intros Hnet Hlen Hchain Hle. unfold consult. rewrite Hnet. cbn -[valid_chain]. run.
  rewrite Hlen, Hchain. cbn -[valid_chain].
  destruct (Z.ltb_spec m n); [lia | reflexivity].
Qed.

(** X11. [resolve_conflicts] keeps the local chain when no peer reports
    more blocks than it has: if every visited peer is skipped (status other
    than 200) or answers 200 with a JSON object that holds a [chain] entry
    and an int [length] entry not above the local length, the call returns
    false and nothing at all has changed.  With no peers it returns false. *)
Theorem resolve_conflicts_not_longer
  (net : network) (order : list string) (w : world) (local : list value) :
  chain (blockchain w) = VList local ->
  (forall node,
      node ∈ order ->
      skipped net node = true \/
      exists body n c,
        net node = Response 200 (Some body) /\
        getitem_str body "length" = Ok (VInt n) /\
        getitem_str body "chain" = Ok c /\
        n <= Z.of_nat (length local)) ->
  resolve_conflicts net order w = (Ok false, w).
Proof.
  intros Hlocal Hpeers. unfold resolve_conflicts. run. rewrite Hlocal. cbn [py_len]. run.
  assert (E : consult_all net order (None, VInt (Z.of_nat (length local))) w
              = (Ok (None, VInt (Z.of_nat (length local))), w)).
  { induction order as [|node order IH]; [reflexivity|]. cbn [consult_all]. unfold bind.
    destruct (Hpeers node) as [Hskip | (body & n & c & Hnet & Hlen & Hchain & Hle)];
      [now apply elem_of_cons; left | |].
    - rewrite consult_skipped by assumption. apply IH.
      intros n Hin. apply Hpeers. now apply elem_of_cons; right.
    - rewrite (consult_not_longer net node None _ n body c w) by assumption. apply IH.
      intros n' Hin. apply Hpeers. now apply elem_of_cons; right. }
  rewrite E. reflexivity.
Qed.

Lemma resolve_conflicts_not_longer_witness :
  resolve_conflicts (fun node => if String.eqb node "busy:5000"
                                 then Response 503 None else peer_answer 2)
                    ["busy:5000"; "peer:5000"] one_peer_world
  = (Ok false, one_peer_world).
Proof.
  apply (resolve_conflicts_not_longer _ _ one_peer_world
           [genesis "1.0";
            second_block "2.0" (VInt 0)
              (HashObj 0 (encode (default EmptyString (json_dumps (genesis "1.0")))))]).
  - reflexivity.
  - intros node Hin. apply elem_of_cons in Hin as [-> | Hin]; [now left|].
    apply elem_of_cons in Hin as [-> | Hin]; [|now apply elem_of_nil in Hin].
    right. do 3 eexists. split; [reflexivity|]. split; [reflexivity|].
    split; [reflexivity|]. cbn. lia.
Defined.

(** ** The chain is never empty *)

Lemma new_block_chain (now : string) (proof prev : value) (w : world) :
  chain (blockchain (snd (new_block now proof prev w))) = chain (blockchain w) \/
  exists blocks block,
    chain (blockchain (snd (new_block now proof prev w))) = VList (blocks ++ [block]).
Proof.
  destruct w as [[cur c nd] nid]. unfold new_block. run.
  destruct (py_len c) as [n| |]; cbn; [|now left..].
  destruct (truthy prev); run.
  - destruct c; cbn; try now left. right. now eexists _, _.
  - destruct (getitem_int c (-1)) as [last| |]; cbn; [|now left..].
    unfold hash. destruct (json_dumps last); cbn; [|now left].
    destruct c; cbn; try now left. right. now eexists _, _.
Qed.

Lemma new_transaction_chain (sender recipient amount : value) (w : world) :
  chain (blockchain (snd (new_transaction sender recipient amount w))) = chain (blockchain w).
Proof.
  destruct w as [[cur c nd] nid]. unfold new_transaction. run.
  destruct (getitem_int c (-1)) as [last| |]; cbn; try reflexivity.
  destruct (getitem_str last "index") as [i| |]; cbn; reflexivity.
Qed.

Lemma register_node_chain (ok : string -> bool) (address : string) (w : world) :
  chain (blockchain (snd (register_node ok address w))) = chain (blockchain w).
Proof.
  unfold register_node. run. now destruct (urlparse_netloc ok address).
Qed.

Lemma nonempty_sequence_last (c : value) :
  nonempty_sequence c = true -> exists last, getitem_int c (-1) = Ok last.
Proof.
  destruct c; try discriminate.
  - destruct s as [|a s]; [discriminate|]. intros _. cbn [getitem_int chars].
    destruct (exists_last (l := VStr (String a EmptyString) :: chars s)) as (l & x & ->);
      [discriminate|].
    exists x. apply index_list_last.
  - destruct xs as [|x0 xs]; [discriminate|]. intros _. cbn [getitem_int].
    destruct (exists_last (l := x0 :: xs)) as (l & x & ->); [discriminate|].
    exists x. apply index_list_last.
Qed.

(** The invariant behind [last_block]: the methods leave a chain that has
    a last item. *)
Lemma running_nonempty (w : world) :
  running w -> nonempty_sequence (chain (blockchain w)) = true.
Proof.
  intros Hr.
  induction Hr as [now w | now proof prev w _ IH | sender recipient amount w _ IH
                  | block w _ IH | ok address w _ IH | c w _ IH | net order w _ IH].
  - now rewrite Blockchain_init_world.
  - destruct (new_block_chain now proof prev w) as [-> | (blocks & block & ->)];
      [assumption | now destruct blocks].
  - now rewrite new_transaction_chain.
  - now rewrite hash_blockchain.
  - now rewrite register_node_chain.
  - now rewrite (reads_only_valid_chain c w).
  - destruct (resolve_conflicts_cases (fun c => nonempty_sequence c = true) net order w)
      as [(_ & ->) | (_ & c & Hc & ->)]; [|assumption..].
    intros node body c w0 _ _ _. apply valid_chain_true_nonempty.
Qed.

(** X12. Whatever methods are called after construction, with whatever
    arguments and whatever the peers answer, the chain is never empty and
    [last_block] returns a block: [new_block] only appends, and
    [resolve_conflicts] only adopts a chain on which [valid_chain] could read
    a first block. *)
Theorem chain_never_empty (w : world) :
  running w ->
  nonempty_sequence (chain (blockchain w)) = true /\
  exists last, last_block w = (Ok last, w).
Proof.
  intros Hr. pose proof (running_nonempty w Hr) as H.
  split; [assumption|]. destruct (nonempty_sequence_last _ H) as (last & Hlast).
  exists last. unfold last_block. run. now rewrite Hlast.
Qed.

Lemma chain_never_empty_witness :
  nonempty_sequence (chain (blockchain adopted_world)) = true /\
  exists last, last_block adopted_world = (Ok last, adopted_world).
Proof.
  apply (chain_never_empty adopted_world). apply run_resolve_conflicts, run_init.
Defined.

(** ** [resolve_conflicts] goes by the length a peer reports *)

Lemma consult_reported_longer (net : network) (node : string) (best_chain : option value)
      (m reported : Z) (block : value) (w : world) :
  net node = Response 200 (Some (VDict [("length", VInt reported);
                                        ("chain", VList [block])])) ->
  m < reported ->
  consult net node (best_chain, VInt m) w = (Ok (Some (VList [block]), VInt reported), w).
Proof.
  intros Hnet Hlt. unfold consult. rewrite Hnet. cbn -[valid_chain]. run.
  destruct (Z.ltb_spec m reported); [|lia]. now rewrite valid_chain_single.
Qed.

Lemma consult_all_reported_same (net : network) (order : list string)
      (best_chain : option value) (reported : Z) (peer_chain : value) (w : world) :
  (forall node, node ∈ order ->
                net node = Response 200 (Some (VDict [("length", VInt reported);
                                                      ("chain", peer_chain)]))) ->
  consult_all net order (best_chain, VInt reported) w = (Ok (best_chain, VInt reported), w).
Proof.
  induction order as [|node order IH]; intros Hnet; [reflexivity|].
  cbn [consult_all]. unfold bind.
  rewrite (consult_not_longer net node best_chain reported reported
             (VDict [("length", VInt reported); ("chain", peer_chain)]) peer_chain w);
    [| apply Hnet; now apply elem_of_cons; left | reflexivity | reflexivity | lia].
  apply IH. intros n Hin. apply Hnet. now apply elem_of_cons; right.
Qed.

(** C9. [resolve_conflicts] compares the length a peer reports, not the
    number of blocks it sends.  Take any state the methods can reach whose
    chain is a list, and peers (at least one) that answer 200, report more
    blocks than the local chain has, and send a one-block chain other than
    the local chain.  That chain has no more blocks than the local one and
    passes [valid_chain], and [resolve_conflicts] returns true having
    replaced the local chain by it; nothing else changes. *)
Theorem resolve_conflicts_trusts_reported_length
  (net : network) (order : list string) (w : world)
  (local_chain : list value) (reported : Z) (block : value) :
  running w ->
  chain (blockchain w) = VList local_chain ->
  order <> [] ->
  (forall node, node ∈ order ->
                net node = Response 200 (Some (VDict [("length", VInt reported);
                                                      ("chain", VList [block])]))) ->
  Z.of_nat (length local_chain) < reported ->
  [block] <> local_chain ->
  (length [block] <= length local_chain)%nat /\
  fst (valid_chain (VList [block]) w) = Ok true /\
  resolve_conflicts net order w
  = (Ok true,
     mkWorld (mkBlockchain (current_transactions (blockchain w)) (VList [block])
                           (nodes (blockchain w)))
             (next_id w)) /\
  chain (blockchain (snd (resolve_conflicts net order w))) <> chain (blockchain w).
Proof.
  intros Hrun Hlocal Horder Hnet Hlt Hne.
  assert (E : resolve_conflicts net order w
              = (Ok true,
                 mkWorld (mkBlockchain (current_transactions (blockchain w)) (VList [block])
                                       (nodes (blockchain w)))
                         (next_id w))).
  { destruct order as [|node order]; [now destruct Horder|].
    unfold resolve_conflicts. run. rewrite Hlocal. cbn [py_len]. run.
    cbn [consult_all]. unfold bind.
    rewrite (consult_reported_longer net node None _ reported block w);
      [| apply Hnet; now apply elem_of_cons; left | exact Hlt].
    rewrite (consult_all_reported_same net order (Some (VList [block])) reported
               (VList [block]) w)
      by (intros n Hin; apply Hnet; now apply elem_of_cons; right).
    reflexivity. }
  split; [|split; [|split]].
  - pose proof (running_nonempty w Hrun) as Hnonempty. rewrite Hlocal in Hnonempty.
    destruct local_chain; [discriminate | cbn; lia].
  - now rewrite valid_chain_single.
  - exact E.
  - rewrite E, Hlocal. cbn. intros [= H]. now apply Hne.
Qed.

(** The local chain has two blocks; the only peer reports three and sends
    the one-block chain of another new Blockchain. *)
Lemma resolve_conflicts_trusts_reported_length_witness :
  elements (nodes (blockchain one_peer_world)) = ["peer:5000"] /\
  py_len (chain (blockchain one_peer_world)) = Ok 2 /\
  lying_net "peer:5000"
  = Response 200 (Some (VDict [("length", VInt 3); ("chain", VList [genesis "9.0"])])) /\
  fst (valid_chain (VList [genesis "9.0"]) one_peer_world) = Ok true /\
  resolve_conflicts lying_net ["peer:5000"] one_peer_world
  = (Ok true,
     mkWorld (mkBlockchain (current_transactions (blockchain one_peer_world))
                           (VList [genesis "9.0"])
                           (nodes (blockchain one_peer_world)))
             (next_id one_peer_world)) /\
  chain (blockchain (snd (resolve_conflicts lying_net ["peer:5000"] one_peer_world)))
  <> chain (blockchain one_peer_world).
Proof.
  split; [apply elements_one_peer_world|]. split; [reflexivity|]. split; [reflexivity|].
  apply (resolve_conflicts_trusts_reported_length
           lying_net ["peer:5000"] one_peer_world
           [genesis "1.0";
            second_block "2.0" (VInt 0)
              (HashObj 0 (encode (default EmptyString (json_dumps (genesis "1.0")))))]
           3 (genesis "9.0")).
  - apply run_register_node, run_new_block, run_init.
  - reflexivity.
  - discriminate.
  - intros node _. reflexivity.
  - cbn. lia.
  - discriminate.
Defined.

(** ** [resolve_conflicts] among peers that offer one-block chains *)

Lemma consult_offering (offers : string -> Z * value) (node : string)
      (best : option value * Z) (w : world) :
  consult (offering offers) node (fst best, VInt (snd best)) w =
  (Ok (fst (pick offers [node] best), VInt (snd (pick offers [node] best))), w).
Proof.
  unfold consult, offering, offer. cbn -[valid_chain]. run.
  destruct (snd best <? fst (offers node)); cbn -[valid_chain]; [|reflexivity].
  now rewrite valid_chain_single.
Qed.

Lemma consult_all_offering (offers : string -> Z * value) (order : list string)
      (best : option value * Z) (w : world) :
  consult_all (offering offers) order (fst best, VInt (snd best)) w =
  (Ok (fst (pick offers order best), VInt (snd (pick offers order best))), w).
Proof.
  revert best. induction order as [|node order IH]; intros best; [reflexivity|].
  cbn [consult_all]. unfold bind. rewrite consult_offering.
  exact (IH (pick offers [node] best)).
Qed.

Lemma pick_ge (offers : string -> Z * value) (order : list string) (best : option value * Z) :
  snd best <= snd (pick offers order best) /\
  forall node, node ∈ order -> fst (offers node) <= snd (pick offers order best).
Proof.
  revert best. induction order as [|node order IH]; intros best; cbn [pick].
  - split; [lia|]. intros node Hin. now apply elem_of_nil in Hin.
  - match goal with |- context [pick offers order ?b] => destruct (IH b) as (Hb & Hall) end.
    destruct (Z.ltb_spec (snd best) (fst (offers node))) as [Hlt|Hge]; cbn in Hb.
    + split; [lia|]. intros n Hin. apply elem_of_cons in Hin as [-> | Hin]; [lia | auto].
    + split; [lia|]. intros n Hin. apply elem_of_cons in Hin as [-> | Hin]; [lia | auto].
Qed.

Lemma pick_from (offers : string -> Z * value) (order : list string) (best : option value * Z) :
  pick offers order best = best \/
  exists node,
    node ∈ order /\
    snd best < fst (offers node) /\
    pick offers order best = (Some (VList [snd (offers node)]), fst (offers node)).
Proof.
  revert best. induction order as [|node order IH]; intros best; cbn [pick]; [now left|].
  match goal with |- context [pick offers order ?b] => destruct (IH b) as [E | (n & Hin & Hlt & E)] end.
  - rewrite E. destruct (Z.ltb_spec (snd best) (fst (offers node))) as [Hlt|Hge]; [|now left].
    right. exists node. split; [now apply elem_of_cons; left|]. now split.
  - right. exists n. split; [now apply elem_of_cons; right|]. split; [|exact E].
    destruct (Z.ltb_spec (snd best) (fst (offers node))); cbn in Hlt; lia.
Qed.

Lemma pick_swap (offers : string -> Z * value) (a b : string) (best : option value * Z) :
  fst (offers a) <> fst (offers b) ->
  pick offers [a; b] best = pick offers [b; a] best.
Proof.
  intros Hne. cbn [pick].
  destruct (Z.ltb_spec (snd best) (fst (offers a))), (Z.ltb_spec (snd best) (fst (offers b)));
    cbn [fst snd];
    repeat match goal with
           | |- context [?x <? ?y] => destruct (Z.ltb_spec x y)
           end; cbn [fst snd]; try reflexivity; lia.
Qed.

Lemma pick_cons (offers : string -> Z * value) (node : string) (order : list string)
      (best : option value * Z) :
  pick offers (node :: order) best = pick offers order (pick offers [node] best).
Proof. reflexivity. Qed.

(** The scan does not depend on the order of peers whose reported lengths
    are pairwise distinct. *)
Lemma pick_perm (offers : string -> Z * value) (order order' : list string)
      (best : option value * Z) :
  NoDup (map (fun node => fst (offers node)) order) ->
  order ≡ₚ order' ->
  pick offers order best = pick offers order' best.
Proof.
  intros Hnd Hperm. revert best Hnd.
  induction Hperm as [|x l l' Hperm IH|x y l|l1 l2 l3 H12 IH12 H23 IH23]; intros best Hnd.
  - reflexivity.
  - rewrite (pick_cons _ x l), (pick_cons _ x l'). apply IH.
    cbn in Hnd. now apply NoDup_cons in Hnd.
  - change (pick offers (y :: x :: l) best) with (pick offers l (pick offers [y; x] best)).
    change (pick offers (x :: y :: l) best) with (pick offers l (pick offers [x; y] best)).
    rewrite (pick_swap offers y x); [reflexivity|].
    cbn in Hnd. apply NoDup_cons in Hnd as [Hy _]. intros E. apply Hy.
    rewrite E. apply elem_of_cons. now left.
  - rewrite IH12 by assumption. apply IH23.
    now rewrite <- (Permutation_map (fun node => fst (offers node)) H12).
Qed.

(** X13. Among peers that all answer 200 with an int length and a
    one-block chain, with reported lengths pairwise distinct, the outcome of
    [resolve_conflicts] (its result and the state it leaves) is the same in
    whatever order the set of peers is visited. *)
Theorem resolve_conflicts_order_independent
  (offers : string -> Z * value) (order order' : list string) (w : world) :
  NoDup (map (fun node => fst (offers node)) order) ->
  order ≡ₚ order' ->
  resolve_conflicts (offering offers) order w = resolve_conflicts (offering offers) order' w.
Proof.
  intros Hnd Hperm. unfold resolve_conflicts. run.
  destruct (py_len (chain (blockchain w))) as [n| |]; cbn; try reflexivity.
  rewrite !(consult_all_offering offers _ (None, n)).
  now rewrite (pick_perm offers order order' (None, n) Hnd Hperm).
Qed.

Lemma resolve_conflicts_order_independent_witness :
  resolve_conflicts
    (offering (fun node => if String.eqb node "a:1" then (3, genesis "8.0")
                           else (5, genesis "9.0")))
    ["a:1"; "b:1"] (fresh "1.0")
  = resolve_conflicts
      (offering (fun node => if String.eqb node "a:1" then (3, genesis "8.0")
                             else (5, genesis "9.0")))
      ["b:1"; "a:1"] (fresh "1.0").
Proof.
  apply resolve_conflicts_order_independent.
  - cbn. apply NoDup_cons. split; [|apply NoDup_singleton].
    intros H. apply elem_of_cons in H as [H | H]; [discriminate H | now apply elem_of_nil in H].
  - apply Permutation_swap.
Defined.

(** X14. Among peers that all answer 200 with an int length and a
    one-block chain, as soon as one reports more blocks than the local chain
    has, [resolve_conflicts] returns true and the chain becomes the chain of
    a peer whose reported length is above the local length and not below any
    other peer's; the pending pool and the peers are unchanged. *)
Theorem resolve_conflicts_adopts_greatest
  (offers : string -> Z * value) (order : list string) (w : world) (local : list value) :
  chain (blockchain w) = VList local ->
  (exists node, node ∈ order /\ Z.of_nat (length local) < fst (offers node)) ->
  exists winner,
    winner ∈ order /\
    Z.of_nat (length local) < fst (offers winner) /\
    (forall node, node ∈ order -> fst (offers node) <= fst (offers winner)) /\
    resolve_conflicts (offering offers) order w =
    (Ok true,
     mkWorld (mkBlockchain (current_transactions (blockchain w))
                           (VList [snd (offers winner)]) (nodes (blockchain w)))
             (next_id w)).
Proof.
  intros Hlocal (node & Hin & Hlt).
  set (n := Z.of_nat (length local)) in *.
  destruct (pick_ge offers order (None, n)) as (_ & Hall).
  destruct (pick_from offers order (None, n)) as [E | (winner & Hw & Hwlt & E)].
  - rewrite E in Hall. specialize (Hall node Hin). cbn in Hall. lia.
  - exists winner. split; [assumption|]. split; [assumption|].
    rewrite E in Hall. split; [exact Hall|].
    unfold resolve_conflicts. run. rewrite Hlocal. cbn [py_len]. run. fold n.
    rewrite (consult_all_offering offers order (None, n)), E. reflexivity.
Qed.

Lemma resolve_conflicts_adopts_greatest_witness :
  exists winner,
    winner ∈ ["a:1"; "b:1"] /\
    Z.of_nat (length [genesis "1.0"]) < fst (if String.eqb winner "a:1"
                                             then (3, genesis "8.0") else (5, genesis "9.0")) /\
    (forall node,
        node ∈ ["a:1"; "b:1"] ->
        fst (if String.eqb node "a:1" then (3, genesis "8.0") else (5, genesis "9.0"))
        <= fst (if String.eqb winner "a:1" then (3, genesis "8.0") else (5, genesis "9.0"))) /\
    resolve_conflicts
      (offering (fun node => if String.eqb node "a:1" then (3, genesis "8.0")
                             else (5, genesis "9.0")))
      ["a:1"; "b:1"] (fresh "1.0") =
    (Ok true,
     mkWorld (mkBlockchain (current_transactions (blockchain (fresh "1.0")))
                           (VList [snd (if String.eqb winner "a:1"
                                        then (3, genesis "8.0") else (5, genesis "9.0"))])
                           (nodes (blockchain (fresh "1.0"))))
             (next_id (fresh "1.0"))).
Proof.
  apply (resolve_conflicts_adopts_greatest
           (fun node => if String.eqb node "a:1" then (3, genesis "8.0") else (5, genesis "9.0"))
           ["a:1"; "b:1"] (fresh "1.0") [genesis "1.0"]).
  - reflexivity.
  - exists "a:1". split; [apply elem_of_cons; now left | cbn; lia].
Defined.

(** ** [register_node] on addresses with a scheme *)

Lemma append_cons (c : ascii) (s t : string) : String c s +:+ t = String c (s +:+ t).
Proof. reflexivity. Qed.

Lemma remove_unsafe_app (s t : string) :
  remove_unsafe (s +:+ t) = remove_unsafe s +:+ remove_unsafe t.
Proof.
  induction s as [|c s IH]; [reflexivity|].
  rewrite append_cons. cbn [remove_unsafe].
  destruct (unsafe_byte c); [|rewrite append_cons]; now rewrite IH.
Qed.

Lemma remove_unsafe_safe (s : string) :
  all_chars (fun c => negb (unsafe_byte c)) s = true -> remove_unsafe s = s.
Proof.
  induction s as [|c s IH]; cbn; [reflexivity|].
  intros H. apply andb_true_iff in H as [Hc Hs].
  apply negb_true_iff in Hc. rewrite Hc. now rewrite IH.
Qed.

Lemma all_chars_impl (p q : ascii -> bool) (s : string) :
  (forall c, p c = true -> q c = true) -> all_chars p s = true -> all_chars q s = true.
Proof.
  intros Hpq. induction s as [|c s IH]; cbn; [reflexivity|].
  intros H. apply andb_true_iff in H as [Hc Hs]. now rewrite (Hpq c Hc), IH.
Qed.

Lemma scheme_char_facts (c : ascii) :
  scheme_char c = true ->
  unsafe_byte c = false /\ Ascii.eqb c ":" = false /\ c0_control_or_space c = false.
Proof.
  destruct c as [[|] [|] [|] [|] [|] [|] [|] [|]]; cbn; intros H; try discriminate H;
    repeat split; reflexivity.
Qed.

Lemma is_delim_safe (c : ascii) : is_delim c = true -> unsafe_byte c = false.
Proof.
  destruct c as [[|] [|] [|] [|] [|] [|] [|] [|]]; cbn; intros H; try discriminate H;
    reflexivity.
Qed.

Lemma split_colon_app (s t : string) :
  all_chars (fun c => negb (Ascii.eqb c ":")) s = true ->
  split_colon (s +:+ String ":" t) = Some (s, t).
Proof.
  induction s as [|c s IH]; [reflexivity|]. rewrite append_cons. cbn [split_colon all_chars].
  intros H. apply andb_true_iff in H as [Hc Hs].
  apply negb_true_iff in Hc. rewrite Hc. now rewrite IH.
Qed.

Lemma until_delim_app (host rest : string) :
  all_chars (fun c => negb (is_delim c)) host = true ->
  starts_path rest = true ->
  until_delim (host +:+ rest) = host.
Proof.
  intros Hhost Hrest. induction host as [|c host IH].
  - change (EmptyString +:+ rest) with rest.
    destruct rest as [|d rest]; [reflexivity|]. cbn [starts_path] in Hrest.
    unfold is_delim in Hrest. cbn [until_delim]. now rewrite Hrest.
  - rewrite append_cons. cbn [until_delim]. cbn [all_chars] in Hhost. apply andb_true_iff in Hhost as [Hc Hh].
    apply negb_true_iff in Hc. unfold is_delim in Hc. rewrite Hc. now rewrite IH.
Qed.

Lemma contains_char_all (c : ascii) (p : ascii -> bool) (s : string) :
  p c = false -> all_chars p s = true -> contains_char c s = false.
Proof.
  intros Hc. induction s as [|d s IH]; cbn; [reflexivity|].
  intros H. apply andb_true_iff in H as [Hd Hs]. rewrite (IH Hs), orb_false_r.
  destruct (Ascii.eqb_spec c d) as [-> | Hne]; [congruence | reflexivity].
Qed.

(** What [urlsplit] leaves after the scheme of [scheme://host...]. *)
Lemma after_scheme_url (scheme host rest : string) :
  valid_scheme scheme = true ->
  plain_host host = true ->
  after_scheme (scheme +:+ "://" +:+ host +:+ rest) = "//" +:+ host +:+ remove_unsafe rest.
Proof.
  intros Hscheme Hhost. destruct scheme as [|c scheme]; [discriminate|].
  cbn in Hscheme. apply andb_true_iff in Hscheme as [Halpha Hchars].
  pose proof Hchars as Hchars'. apply andb_true_iff in Hchars' as [Hc _].
  destruct (scheme_char_facts c Hc) as (_ & _ & Hstrip).
  assert (Hl : lstrip (String c scheme +:+ "://" +:+ host +:+ rest)
               = String c scheme +:+ "://" +:+ host +:+ rest)
    by (rewrite append_cons; cbn [lstrip]; now rewrite Hstrip).
  unfold after_scheme. rewrite Hl.
  rewrite !remove_unsafe_app.
  rewrite (remove_unsafe_safe (String c scheme))
    by (eapply all_chars_impl; [|exact Hchars];
        intros d Hd; destruct (scheme_char_facts d Hd) as (-> & _); reflexivity).
  rewrite (remove_unsafe_safe host)
    by (eapply all_chars_impl; [|exact Hhost];
        intros d Hd; apply negb_true_iff in Hd; apply negb_true_iff;
        now apply orb_false_iff in Hd as [_ Hd]).
  change (remove_unsafe "://") with "://".
  change (String c scheme +:+ "://" +:+ host +:+ remove_unsafe rest)
    with (String c scheme +:+ String ":" ("//" +:+ host +:+ remove_unsafe rest)).
  rewrite split_colon_app
    by (eapply all_chars_impl; [|exact Hchars];
        intros d Hd; destruct (scheme_char_facts d Hd) as (_ & -> & _); reflexivity).
  cbn [all_chars]. now rewrite Halpha, Hchars.
Qed.

(** X15. For an address [scheme://host...] with a well-formed scheme, an
    ASCII host[:port] free of delimiters, brackets, tabs and newlines,
    followed by nothing or by a path, query or fragment, [urlparse] gives
    the host[:port] as network location and [register_node] adds exactly
    that to the peers. *)
Theorem register_node_url
  (bracketed_netloc_ok : string -> bool) (scheme host rest : string) (w : world) :
  valid_scheme scheme = true ->
  plain_host host = true ->
  isascii host = true ->
  starts_path rest = true ->
  urlparse_netloc bracketed_netloc_ok (scheme +:+ "://" +:+ host +:+ rest) = Ok host /\
  register_node bracketed_netloc_ok (scheme +:+ "://" +:+ host +:+ rest) w
  = (Ok tt, add_node host w).
Proof.
  intros Hscheme Hhost Hascii Hrest.
  assert (E : urlparse_netloc bracketed_netloc_ok (scheme +:+ "://" +:+ host +:+ rest) = Ok host).
  { unfold urlparse_netloc, checknetloc, has_authority. rewrite (after_scheme_url _ _ _ Hscheme Hhost).
    change ("//" +:+ host +:+ remove_unsafe rest)
      with (String "/" (String "/" (host +:+ remove_unsafe rest))).
    cbn [substring skip].
    replace (substring 0 0 (host +:+ remove_unsafe rest)) with EmptyString
      by now destruct (host +:+ remove_unsafe rest).
    rewrite String.eqb_refl.
    assert (Hpath : starts_path (remove_unsafe rest) = true).
    { destruct rest as [|d rest]; [reflexivity|]. cbn [starts_path] in Hrest.
      cbn [remove_unsafe]. now rewrite (is_delim_safe d Hrest). }
    rewrite until_delim_app; [| |exact Hpath].
    - rewrite (contains_char_all "[" _ host eq_refl Hhost).
      rewrite (contains_char_all "]" _ host eq_refl Hhost). cbn [andb orb negb].
      now rewrite Hascii.
    - eapply all_chars_impl; [|exact Hhost]. intros d Hd.
      apply negb_true_iff in Hd. apply negb_true_iff.
      apply orb_false_iff in Hd as [Hd _]. apply orb_false_iff in Hd as [Hd _].
      now apply orb_false_iff in Hd as [Hd _]. }
  split; [exact E | now apply register_node_adds].
Qed.

Lemma register_node_url_witness :
  urlparse_netloc (fun _ => true) ("http" +:+ "://" +:+ "192.168.0.5:5000" +:+ "/chain?x=1")
  = Ok "192.168.0.5:5000" /\
  register_node (fun _ => true) ("http" +:+ "://" +:+ "192.168.0.5:5000" +:+ "/chain?x=1")
                (fresh "1.0")
  = (Ok tt, add_node "192.168.0.5:5000" (fresh "1.0")).
Proof.
  apply (register_node_url (fun _ => true) "http" "192.168.0.5:5000" "/chain?x=1" (fresh "1.0"));
    reflexivity.
Defined.

Lemma register_node_result (ok : string -> bool) (address : string) (w : world) :
  register_node ok address w =
  match urlparse_netloc ok address with
  | Ok netloc => (Ok tt, add_node netloc w)
  | Raise e => (Raise e, w)
  | Unmodelled => (Unmodelled, w)
  end.
Proof. unfold register_node. run. now destruct (urlparse_netloc ok address). Qed.

Lemma add_node_comm (n m : string) (w : world) :
  add_node n (add_node m w) = add_node m (add_node n w).
Proof.
  unfold add_node. cbn. do 2 f_equal.
  now rewrite !(assoc_L (∪)), (comm_L (∪) {[n]} {[m]}).
Qed.

Lemma add_node_idem (n : string) (w : world) : add_node n (add_node n w) = add_node n w.
Proof.
  unfold add_node. cbn. do 2 f_equal. now rewrite (assoc_L (∪)), union_idemp_L.
Qed.

Lemma register_node_snd (ok : string -> bool) (address : string) (w : world) :
  snd (register_node ok address w) =
  match urlparse_netloc ok address with
  | Ok netloc => add_node netloc w
  | _ => w
  end.
Proof. rewrite register_node_result. now destruct (urlparse_netloc ok address). Qed.

(** X16. Registrations can be made in any order: registering two addresses
    leaves the same state whichever comes first, also when one of them is
    refused; registering an address again changes nothing more; and
    [register_node] never touches the chain or the pending pool. *)
Theorem register_node_order (ok : string -> bool) (a b : string) (w : world) :
  snd (register_node ok b (snd (register_node ok a w)))
  = snd (register_node ok a (snd (register_node ok b w))) /\
  snd (register_node ok a (snd (register_node ok a w))) = snd (register_node ok a w) /\
  chain (blockchain (snd (register_node ok a w))) = chain (blockchain w) /\
  current_transactions (blockchain (snd (register_node ok a w)))
  = current_transactions (blockchain w).
Proof.
  rewrite !register_node_snd.
  destruct (urlparse_netloc ok a) as [n| |], (urlparse_netloc ok b) as [m| |];
    (split; [try reflexivity; apply add_node_comm|]);
    (split; [try reflexivity; apply add_node_idem|]); split; reflexivity.
Qed.

(** ** The views *)

Lemma load_blockchain_ok (w : world) : load_blockchain "blockchain" w = (Ok tt, w).
Proof. reflexivity. Qed.

(** X17. The view [new_transaction] refuses a JSON object that lacks one
    of [sender], [recipient], [amount]: it answers 400 and changes nothing.
    Given all three in a reachable state, it answers 201, has appended
    exactly that transaction to the pending pool, and its message names the
    block after the last one of the chain. *)
Theorem new_transaction_view_checks (items : list (string * value)) (w : world) :
  (lookup_key "sender" items = None \/ lookup_key "recipient" items = None \/
   lookup_key "amount" items = None ->
   new_transaction_view (VDict items) w = (Ok (VStr "Missing", 400), w)) /\
  (reachable w ->
   forall sender recipient amount,
     lookup_key "sender" items = Some sender ->
     lookup_key "recipient" items = Some recipient ->
     lookup_key "amount" items = Some amount ->
     exists blocks,
       chain (blockchain w) = VList blocks /\
       new_transaction_view (VDict items) w =
       (Ok (VDict [("message",
                    VStr ("Transaction will be added to block #"
                          +:+ str_of_int (Z.of_nat (length blocks) + 1)))], 201),
        mkWorld (mkBlockchain
                   (current_transactions (blockchain w) ++ [transaction sender recipient amount])
                   (chain (blockchain w)) (nodes (blockchain w))) (next_id w))).
Proof.
  split.
  - intros H. unfold new_transaction_view. run. cbn [all_in py_in].
    destruct (lookup_key "sender" items); [|reflexivity].
    destruct (lookup_key "recipient" items); [|reflexivity].
    destruct (lookup_key "amount" items); [|reflexivity].
    destruct H as [H | [H | H]]; discriminate H.
  - intros Hr sender recipient amount Hs Hrc Ha.
    destruct (reachable_numbered w Hr) as (blocks & last & Hc & Hi).
    exists (blocks ++ [last]). split; [assumption|].
    unfold new_transaction_view. run. cbn [all_in py_in getitem_str].
    rewrite Hs, Hrc, Ha. cbn -[new_transaction].
    rewrite (new_transaction_on_numbered _ _ _ _ _ _ Hc Hi). reflexivity.
Qed.

Lemma new_transaction_view_checks_witness :
  new_transaction_view (VDict [("sender", VStr "a"); ("amount", VInt 5)]) busy_world
  = (Ok (VStr "Missing", 400), busy_world) /\
  exists blocks,
    chain (blockchain busy_world) = VList blocks /\
    new_transaction_view
      (VDict [("sender", VStr "a"); ("recipient", VStr "b"); ("amount", VInt 5)]) busy_world =
    (Ok (VDict [("message",
                 VStr ("Transaction will be added to block #"
                       +:+ str_of_int (Z.of_nat (length blocks) + 1)))], 201),
     mkWorld (mkBlockchain
                (current_transactions (blockchain busy_world)
                 ++ [transaction (VStr "a") (VStr "b") (VInt 5)])
                (chain (blockchain busy_world)) (nodes (blockchain busy_world)))
             (next_id busy_world)).
Proof.
  split.
  - apply (new_transaction_view_checks [("sender", VStr "a"); ("amount", VInt 5)] busy_world).
    right. left. reflexivity.
  - apply (new_transaction_view_checks
             [("sender", VStr "a"); ("recipient", VStr "b"); ("amount", VInt 5)] busy_world);
      [apply reach_new_block, reach_new_transaction, reach_init | reflexivity..].
Defined.

(** X18. In a reachable state the view [full_chain] changes nothing and
    answers 200 with the chain and its number of blocks as length, unless a
    block holds a hashlib object: then the encoder raises TypeError.  That
    is so as soon as [new_block] has filled a [previous_hash] itself. *)
Theorem full_chain_reports (w : world) :
  reachable w ->
  exists blocks,
    chain (blockchain w) = VList blocks /\
    full_chain w =
    (if has_hash (VList blocks) then Raise TypeError
     else Ok (VDict [("chain", VList blocks); ("length", VInt (Z.of_nat (length blocks)))], 200),
     w).
Proof.
  intros Hr. destruct (reachable_numbered w Hr) as (blocks & last & Hc & _).
  exists (blocks ++ [last]). split; [assumption|].
  destruct w as [[cur c nd] nid]. cbn in Hc. subst c.
  unfold full_chain, jsonify. run. rewrite !load_blockchain_ok. cbn [py_len]. run.
  cbn [has_hash existsb snd]. rewrite orb_false_r.
  now destruct (existsb has_hash (blocks ++ [last])).
Qed.

Lemma full_chain_reports_witness :
  full_chain (fresh "1.0")
  = (Ok (VDict [("chain", VList [genesis "1.0"]); ("length", VInt 1)], 200), fresh "1.0") /\
  full_chain unproved_world = (Raise TypeError, unproved_world).
Proof.
  split.
  - destruct (full_chain_reports (fresh "1.0") (reach_init "1.0" boot)) as (blocks & Hc & ->).
    injection Hc as <-. reflexivity.
  - destruct (full_chain_reports unproved_world
                (reach_new_block "2.0" (VInt 0) VNone _ (reach_init "1.0" boot)))
      as (blocks & Hc & ->).
    injection Hc as <-. reflexivity.
Defined.

(** X19. When the peers send JSON, the view [consensus] answers 200 with
    the message "Chain replaced" and the adopted chain whenever
    [resolve_conflicts] returns true; when it returns false the view answers
    with the local chain, or raises TypeError if that chain holds a hashlib
    object. *)
Theorem consensus_reports (net : network) (order : list string) (w : world) :
  (forall node status body, net node = Response status (Some body) -> has_hash body = false) ->
  (fst (resolve_conflicts net order w) = Ok true ->
   consensus net order w =
   (Ok (VDict [("message", VStr "Chain replaced");
               ("new_chain", chain (blockchain (snd (resolve_conflicts net order w))))], 200),
    snd (resolve_conflicts net order w))) /\
  (fst (resolve_conflicts net order w) = Ok false ->
   consensus net order w =
   (if has_hash (chain (blockchain w)) then Raise TypeError
    else Ok (VDict [("message", VStr "Current chain is authoritative");
                    ("chain", chain (blockchain w))], 200),
    snd (resolve_conflicts net order w))).
Proof.
  intros Hjson.
  destruct (resolve_conflicts_cases (fun c => has_hash c = false) net order w)
    as [(Hr & Hb) | (Hr & c & Hc & Hb)].
  - intros node body c w0 _ Hnet Hchain _.
    pose proof (Hjson node 200 body Hnet) as Hbody.
    destruct body; try discriminate Hchain. cbn in Hchain, Hbody.
    destruct (lookup_key "chain" items) as [v|] eqn:El; [|discriminate].
    injection Hchain as ->. now apply (lookup_key_has_hash "chain" items).
  - split; intros Hres; [now destruct Hr|].
    unfold consensus, jsonify. run. rewrite load_blockchain_ok.
    destruct (resolve_conflicts net order w) as [r w1]. cbn [fst snd] in Hres, Hb |- *. subst r.
    rewrite load_blockchain_ok. run. rewrite Hb. cbn [has_hash existsb snd].
    rewrite orb_false_r. now destruct (has_hash (chain (blockchain w))).
  - split; intros Hres; [|congruence].
    unfold consensus, jsonify. run. rewrite load_blockchain_ok.
    destruct (resolve_conflicts net order w) as [r w1]. cbn [fst snd] in Hres, Hb |- *. subst r.
    rewrite load_blockchain_ok. run. rewrite Hb. cbn [chain has_hash existsb snd].
    now rewrite Hc.
Qed.

Lemma consensus_reports_witness :
  consensus lying_net ["peer:5000"] one_peer_world =
  (Ok (VDict [("message", VStr "Chain replaced");
              ("new_chain",
               chain (blockchain (snd (resolve_conflicts lying_net ["peer:5000"] one_peer_world))))],
       200),
   snd (resolve_conflicts lying_net ["peer:5000"] one_peer_world)) /\
  consensus lying_net [] one_peer_world =
  (if has_hash (chain (blockchain one_peer_world)) then Raise TypeError
   else Ok (VDict [("message", VStr "Current chain is authoritative");
                   ("chain", chain (blockchain one_peer_world))], 200),
   snd (resolve_conflicts lying_net [] one_peer_world)).
Proof.
  split.
  - apply (consensus_reports lying_net ["peer:5000"] one_peer_world).
    + intros node status body [= _ <-]. reflexivity.
    + vm_compute. reflexivity.
  - apply (consensus_reports lying_net [] one_peer_world).
    + intros node status body [= _ <-]. reflexivity.
    + reflexivity.
Defined.

Lemma register_each_strs (ok : string -> bool) (addresses netlocs : list string) (w : world) :
  Forall2 (fun address netloc => urlparse_netloc ok address = Ok netloc) addresses netlocs ->
  register_each ok (map VStr addresses) w =
  (Ok tt,
   mkWorld (mkBlockchain (current_transactions (blockchain w)) (chain (blockchain w))
                         (list_to_set netlocs ∪ nodes (blockchain w)))
           (next_id w)).
Proof.
  intros H. revert w. induction H as [|address netloc addresses netlocs Hnet _ IH]; intros w.
  - cbn. unfold ret. rewrite union_empty_l_L. now destruct w as [[cur c nd] nid].
  - cbn [map register_each register_node_value]. unfold bind.
    rewrite (register_node_adds ok address netloc w Hnet). rewrite IH. cbn.
    do 3 f_equal.
    now rewrite (assoc_L (∪)), (comm_L (∪) (list_to_set netlocs) {[netloc]}).
Qed.

Lemma strs_have_no_hash (l : list string) : existsb has_hash (map VStr l) = false.
Proof. induction l; cbn; auto. Qed.

(** X20. The view [register_nodes] refuses a JSON object without [nodes]
    (or with a null one): it answers 400 and changes nothing.  Given a list
    of addresses that [urlparse] accepts, it answers 201, the peers are now
    the former ones together with the network locations of the addresses,
    and the chain and the pending pool are untouched. *)
Theorem register_nodes_registers
  (ok : string -> bool) (listing : gset string -> list string)
  (items : list (string * value)) (w : world) :
  (lookup_key "nodes" items = None \/ lookup_key "nodes" items = Some VNone ->
   register_nodes ok listing (VDict items) w
   = (Ok (VStr "Error: Supply a valid list of nodes", 400), w)) /\
  (forall addresses netlocs,
      lookup_key "nodes" items = Some (VList (map VStr addresses)) ->
      Forall2 (fun address netloc => urlparse_netloc ok address = Ok netloc)
              addresses netlocs ->
      register_nodes ok listing (VDict items) w =
      (Ok (VDict [("message", VStr "New nodes registered");
                  ("total_nodes",
                   VList (map VStr (listing (list_to_set netlocs ∪ nodes (blockchain w)))))],
           201),
       mkWorld (mkBlockchain (current_transactions (blockchain w)) (chain (blockchain w))
                             (list_to_set netlocs ∪ nodes (blockchain w)))
               (next_id w))).
Proof.
  split.
  - intros [H | H]; unfold register_nodes; run; cbn [dict_get]; now rewrite H.
  - intros addresses netlocs Hnodes Hparse.
    unfold register_nodes, jsonify. run. cbn [dict_get]. rewrite Hnodes. cbn [py_iter]. run.
    rewrite (register_each_strs ok addresses netlocs w Hparse).
    rewrite load_blockchain_ok. run.
    cbn [has_hash existsb snd]. now rewrite strs_have_no_hash.
Qed.

Lemma register_nodes_registers_witness :
  register_nodes (fun _ => true) elements (VDict [("peers", VList [])]) (fresh "1.0")
  = (Ok (VStr "Error: Supply a valid list of nodes", 400), fresh "1.0") /\
  register_nodes (fun _ => true) elements
                 (VDict [("nodes", VList (map VStr ["http://a:1/x"; "localhost:5000"]))])
                 (fresh "1.0") =
  (Ok (VDict [("message", VStr "New nodes registered");
              ("total_nodes",
               VList (map VStr (elements (list_to_set ["a:1"; EmptyString]
                                          ∪ nodes (blockchain (fresh "1.0"))))))],
       201),
   mkWorld (mkBlockchain (current_transactions (blockchain (fresh "1.0")))
                         (chain (blockchain (fresh "1.0")))
                         (list_to_set ["a:1"; EmptyString] ∪ nodes (blockchain (fresh "1.0"))))
           (next_id (fresh "1.0"))).
Proof.
  destruct (register_nodes_registers (fun _ => true) elements
              [("peers", VList [])] (fresh "1.0")) as (Hmissing & _).
  destruct (register_nodes_registers (fun _ => true) elements
              [("nodes", VList (map VStr ["http://a:1/x"; "localhost:5000"]))] (fresh "1.0"))
    as (_ & Hlist).
  split.
  - apply Hmissing. now left.
  - apply (Hlist ["http://a:1/x"; "localhost:5000"] ["a:1"; EmptyString]);
      [reflexivity|]. repeat constructor.
Defined.

(** ** More on [hash] and on chains built by [new_block] *)

(** X21. [hash] does not depend on the order in which the fields of a block
    were inserted: for a dict with distinct keys and the same items in
    another order, it feeds the same bytes to SHA-256 and gives the same
    outcome in the same state. *)
Theorem hash_ignores_field_order (items items' : list (string * value)) (w : world) :
  NoDup (map fst items) ->
  items ≡ₚ items' ->
  hash (VDict items) w = hash (VDict items') w.
Proof.
  intros Hnd Hperm. unfold hash. now rewrite (json_dumps_field_order items items' Hnd Hperm).
Qed.

Lemma hash_ignores_field_order_witness :
  hash (VDict [("index", VInt 1); ("proof", VInt 100)]) (fresh "1.0")
  = hash (VDict [("proof", VInt 100); ("index", VInt 1)]) (fresh "1.0").
Proof.
  apply hash_ignores_field_order.
  - cbn. apply NoDup_cons. split; [|apply NoDup_singleton].
    intros H. apply elem_of_cons in H as [H | H]; [discriminate H | now apply elem_of_nil in H].
  - apply Permutation_swap.
Defined.

(** X22. A chain built by [new_block] alone, with [previous_hash] left out,
    never has more than two blocks, and nothing is ever pending: the second
    block holds the hashlib object that [hash] returned, so no third block
    can be built. *)
Theorem built_at_most_two (w : world) :
  built w ->
  exists blocks,
    chain (blockchain w) = VList blocks /\
    (1 <= length blocks <= 2)%nat /\
    current_transactions (blockchain w) = [] /\
    forall now proof,
      length blocks = 2%nat -> new_block now proof VNone w = (Raise TypeError, w).
Proof.
  intros Hb.
  destruct (built_shape w Hb) as (Hcur & [(now0 & Hc) | (now0 & now1 & p & h & Hc & _)]).
  - exists [genesis now0]. split; [assumption|]. split; [cbn; lia|]. split; [assumption|].
    intros now proof [=].
  - exists [genesis now0; second_block now1 p h]. split; [assumption|].
    split; [cbn; lia|]. split; [assumption|]. intros now proof _.
    destruct w as [[cur c nd] nid]. cbn in Hc. subst c.
    unfold new_block. run. cbn [py_len truthy getitem_int].
    change (index_list [genesis now0; second_block now1 p h] (-1))
      with (Ok (second_block now1 p h)).
    run. rewrite hash_raises by apply json_dumps_second_block. reflexivity.
Qed.

Lemma built_at_most_two_witness :
  exists blocks,
    chain (blockchain unproved_world) = VList blocks /\
    (1 <= length blocks <= 2)%nat /\
    current_transactions (blockchain unproved_world) = [] /\
    forall now proof,
      length blocks = 2%nat ->
      new_block now proof VNone unproved_world = (Raise TypeError, unproved_world).
Proof. apply (built_at_most_two unproved_world). exact built_unproved_world. Defined.
